(** * outyet: the polling server of [outyet.go]

    A shallow embedding of [src/outyet.go] and the properties of its
    polling loop, its probe, its counters and its start-up code.

    The server owns one boolean, [yes], guarded by a reader/writer lock.
    One goroutine ([poll]) probes a URL until the probe succeeds and then
    sets [yes]; any number of request handlers ([ServeHTTP]) read it.
    The process-wide [expvar] counters are [int64] values and wrap around. *)

From stdpp Require Import base numbers list strings gmap.
From Stdlib Require Import ZArith Lia.

Local Open Scope Z_scope.

(** ** Machine integers *)

Module Int64.

Definition modulus : Z := 2 ^ 64.
Definition min_signed : Z := - 2 ^ 63.
Definition max_signed : Z := 2 ^ 63 - 1.

(** Two's complement wrap-around of a mathematical integer to [int64]. *)
Definition wrap (z : Z) : Z := (z + 2 ^ 63) mod modulus - 2 ^ 63.

Definition in_range (z : Z) : Prop := min_signed <= z <= max_signed.

(** [atomic.AddInt64]: addition modulo [2^64]. *)
Definition add (a b : Z) : Z := wrap (a + b).

End Int64.

(** ** The exported variables ([expvar]) *)

(** [hitCount], [pollCount] and [pollErrorCount] are [expvar.Int] (an
    [int64] updated with [atomic.AddInt64]); [pollError] is an
    [expvar.String]. *)
Record Vars : Type := mkVars {
  hitCount : Z;
  pollCount : Z;
  pollError : string;
  pollErrorCount : Z
}.

(** The values the variables have when the process starts. *)
Definition Vars_init : Vars :=
  {| hitCount := 0; pollCount := 0; pollError := ""; pollErrorCount := 0 |}.

Definition hitCount_Add (d : Z) (v : Vars) : Vars :=
  {| hitCount := Int64.add (hitCount v) d; pollCount := pollCount v;
     pollError := pollError v; pollErrorCount := pollErrorCount v |}.

Definition pollCount_Add (d : Z) (v : Vars) : Vars :=
  {| hitCount := hitCount v; pollCount := Int64.add (pollCount v) d;
     pollError := pollError v; pollErrorCount := pollErrorCount v |}.

Definition pollError_Set (m : string) (v : Vars) : Vars :=
  {| hitCount := hitCount v; pollCount := pollCount v;
     pollError := m; pollErrorCount := pollErrorCount v |}.

Definition pollErrorCount_Add (d : Z) (v : Vars) : Vars :=
  {| hitCount := hitCount v; pollCount := pollCount v;
     pollError := pollError v; pollErrorCount := Int64.add (pollErrorCount v) d |}.

(** ** The environment *)

(** The two outcomes of [http.Head]: an error ([err != nil], with the text
    of [err.Error()]) or a response with its status code. *)
Inductive HeadResult : Type :=
  | HeadErr (msg : string)
  | HeadResp (StatusCode : Z).

Definition StatusOK : Z := 200.

(** What the polling goroutine does to the outside, in program order. *)
Inductive Event : Type :=
  | EvHead (u : string)      (* http.Head(u) *)
  | EvLog (msg : string)     (* log.Print(err) *)
  | EvSleep (d : Z)          (* pollSleep(d) *)
  | EvLock                   (* s.mu.Lock() *)
  | EvStore                  (* s.yes = true *)
  | EvUnlock                 (* s.mu.Unlock() *)
  | EvDone.                  (* pollDone() *)

Global Instance Event_eq_dec : EqDecision Event.
Proof. solve_decision. Defined.

(** ** The lock *)

(** A [sync.RWMutex]: held by one writer, or by a number of readers.
    [waiting] tells that a call of [Lock] has begun and waits for the
    readers inside to leave; from then on new readers are kept out. *)
Record RWMutex : Type := mkMu { writer : bool; waiting : bool; readers : nat }.

(** The outcome of one step of a goroutine. [NotEnabled]: the goroutine
    cannot take the step now (it waits for the lock, or has returned).
    [Fatal]: the runtime stops the process. *)
Inductive result (A : Type) : Type :=
  | Ok (a : A)
  | NotEnabled
  | Fatal (msg : string).
Arguments Ok {A} a.
Arguments NotEnabled {A}.
Arguments Fatal {A} msg.

(** [Lock] when no reader is inside: the call returns with the lock held. *)
Definition mu_Lock (m : RWMutex) : result RWMutex :=
  if writer m then NotEnabled
  else match readers m with
       | O => Ok {| writer := true; waiting := false; readers := O |}
       | S _ => NotEnabled
       end.

(** [Lock] when readers are inside: the call begins, and waits. *)
Definition mu_Lock_begin (m : RWMutex) : result RWMutex :=
  if writer m then NotEnabled
  else if waiting m then NotEnabled
  else Ok {| writer := false; waiting := true; readers := readers m |}.

Definition mu_Unlock (m : RWMutex) : result RWMutex :=
  if writer m then Ok {| writer := false; waiting := waiting m; readers := readers m |}
  else Fatal "sync: Unlock of unlocked RWMutex".

(** [RLock] waits while the lock is held for writing and while a call of
    [Lock] is waiting. *)
Definition mu_RLock (m : RWMutex) : result RWMutex :=
  if writer m then NotEnabled
  else if waiting m then NotEnabled
  else Ok {| writer := false; waiting := false; readers := S (readers m) |}.

Definition mu_RUnlock (m : RWMutex) : result RWMutex :=
  match readers m with
  | O => Fatal "sync: RUnlock of unlocked RWMutex"
  | S n => Ok {| writer := writer m; waiting := waiting m; readers := n |}
  end.

(** ** The server *)

Record Server : Type := mkServer {
  version : string;
  url : string;
  period : Z;          (* time.Duration: nanoseconds, an int64 *)
  mu : RWMutex;
  yes : bool
}.

Definition set_mu (m : RWMutex) (s : Server) : Server :=
  {| version := version s; url := url s; period := period s;
     mu := m; yes := yes s |}.

Definition set_yes (b : bool) (s : Server) : Server :=
  {| version := version s; url := url s; period := period s;
     mu := mu s; yes := b |}.

(** The state the functions of the program work on: the server, the
    exported variables, the network and the events of the polling
    goroutine. [net u n] is the outcome of the [n]-th [http.Head] call of
    the process when it asks for [u]; [heads] counts the calls made. *)
Record State : Type := mkState {
  srv : Server;
  vars : Vars;
  net : string -> nat -> HeadResult;
  heads : nat;
  trace : list Event
}.

Definition with_srv (s : Server) (st : State) : State :=
  {| srv := s; vars := vars st; net := net st; heads := heads st;
     trace := trace st |}.

Definition with_vars (v : Vars) (st : State) : State :=
  {| srv := srv st; vars := v; net := net st; heads := heads st;
     trace := trace st |}.

Definition emit (e : Event) (st : State) : State :=
  {| srv := srv st; vars := vars st; net := net st; heads := heads st;
     trace := trace st ++ [e] |}.

(** [http.Head(u)]: the next outcome of the network. *)
Definition http_Head (u : string) (st : State) : HeadResult * State :=
  (net st u (heads st),
   {| srv := srv st; vars := vars st; net := net st; heads := S (heads st);
      trace := trace st ++ [EvHead u] |}).

Global Instance result_bind : MBind result := fun A B k r =>
  match r with
  | Ok a => k a
  | NotEnabled => NotEnabled
  | Fatal m => Fatal m
  end.

(** ** The probe *)

(** [isTagged]: one HEAD request; reports whether it returned 200 OK. *)
Definition isTagged (u : string) (st : State) : bool * State :=
  let st := with_vars (pollCount_Add 1 (vars st)) st in
  let '(r, st) := http_Head u st in
  match r with
  | HeadErr msg =>
      let st := emit (EvLog msg) st in
      let st := with_vars (pollError_Set msg (vars st)) st in
      let st := with_vars (pollErrorCount_Add 1 (vars st)) st in
      (false, st)
  | HeadResp code => (code =? StatusOK, st)
  end.

(** ** The hooks *)

(** [pollSleep] and [pollDone] are variables a test may replace; a call is
    recorded with its argument. *)
Definition pollSleep (d : Z) (st : State) : State := emit (EvSleep d) st.

Definition pollDone (st : State) : State := emit EvDone st.

(** The pause of the default hook, [time.Sleep]: it returns at once for a
    duration that is zero or negative. *)
Definition time_Sleep_pause (d : Z) : Z := Z.max 0 d.

(** ** The statements of [poll] after the loop *)

Definition Lock (st : State) : result State :=
  m ← mu_Lock (mu (srv st));
  Ok (emit EvLock (with_srv (set_mu m (srv st)) st)).

(** The beginning of a call of [Lock] that has to wait. *)
Definition Lock_begin (st : State) : result State :=
  m ← mu_Lock_begin (mu (srv st));
  Ok (with_srv (set_mu m (srv st)) st).

Definition store_yes (st : State) : State :=
  emit EvStore (with_srv (set_yes true (srv st)) st).

Definition Unlock (st : State) : result State :=
  m ← mu_Unlock (mu (srv st));
  Ok (emit EvUnlock (with_srv (set_mu m (srv st)) st)).

(** ** [poll], run on its own *)

(** [poll] with a bound on the number of probes; [None] when the bound is
    reached with the loop still running. *)
Fixpoint poll (fuel : nat) (st : State) : option (result State) :=
  match fuel with
  | O => None
  | S fuel' =>
      let '(tagged, st) := isTagged (url (srv st)) st in
      if tagged then
        Some (st ← Lock st;
              let st := store_yes st in
              st ← Unlock st;
              Ok (pollDone st))
      else poll fuel' (pollSleep (period (srv st)) st)
  end.

(** ** [poll], one statement at a time *)

Inductive PollPC : Type :=
  | PcTest      (* for !isTagged(s.url) *)
  | PcSleep     (* pollSleep(s.period) *)
  | PcLock      (* s.mu.Lock(), about to be called or waiting for the readers *)
  | PcStore     (* s.yes = true *)
  | PcUnlock    (* s.mu.Unlock() *)
  | PcDone      (* pollDone() *)
  | PcExit.     (* returned *)

Global Instance PollPC_eq_dec : EqDecision PollPC.
Proof. solve_decision. Defined.

Definition poll_step (pc : PollPC) (st : State) : result (PollPC * State) :=
  match pc with
  | PcTest =>
      let '(tagged, st) := isTagged (url (srv st)) st in
      Ok (if tagged then PcLock else PcSleep, st)
  | PcSleep => Ok (PcTest, pollSleep (period (srv st)) st)
  | PcLock =>
      match readers (mu (srv st)) with
      | O => st ← Lock st; Ok (PcStore, st)
      | S _ => st ← Lock_begin st; Ok (PcLock, st)
      end
  | PcStore => Ok (PcUnlock, store_yes st)
  | PcUnlock => st ← Unlock st; Ok (PcDone, st)
  | PcDone => Ok (PcExit, pollDone st)
  | PcExit => NotEnabled
  end.

(** ** [ServeHTTP] *)

(** The value handed to the template. *)
Record Data : Type := mkData { URL : string; Version : string; Yes : bool }.

Definition RLock (st : State) : result State :=
  m ← mu_RLock (mu (srv st)); Ok (with_srv (set_mu m (srv st)) st).

Definition RUnlock (st : State) : result State :=
  m ← mu_RUnlock (mu (srv st)); Ok (with_srv (set_mu m (srv st)) st).

Definition read_data (st : State) : Data :=
  {| URL := url (srv st); Version := version (srv st); Yes := yes (srv st) |}.

(** [ServeHTTP] run without interruption: the data it renders. *)
Definition ServeHTTP (st : State) : result (Data * State) :=
  let st := with_vars (hitCount_Add 1 (vars st)) st in
  st ← RLock st;
  let data := read_data st in
  st ← RUnlock st;
  Ok (data, st).

(** [ServeHTTP], one statement at a time. The writer is taken to accept the
    page, so that [tmpl.Execute] returns no error and nothing is logged. *)
Inductive ServePC : Type :=
  | HHit                   (* hitCount.Add(1) *)
  | HRLock                 (* s.mu.RLock() *)
  | HRead                  (* data := struct{...}{s.url, s.version, s.yes} *)
  | HRUnlock (d : Data)    (* s.mu.RUnlock() *)
  | HExecute (d : Data)    (* tmpl.Execute(w, data) *)
  | HReturned (d : Data).  (* returned, having rendered d *)

Definition serve_step (pc : ServePC) (st : State) : result (ServePC * State) :=
  match pc with
  | HHit => Ok (HRLock, with_vars (hitCount_Add 1 (vars st)) st)
  | HRLock => st ← RLock st; Ok (HRead, st)
  | HRead => Ok (HRUnlock (read_data st), st)
  | HRUnlock d => st ← RUnlock st; Ok (HExecute d, st)
  | HExecute d => Ok (HReturned d, st)
  | HReturned _ => NotEnabled
  end.

(** ** The process: the polling goroutine and the request handlers *)

Record Sys : Type := mkSys {
  state : State;
  ppc : PollPC;
  handlers : list ServePC
}.

(** [NewServer]: the fresh server, with its polling goroutine started. *)
Definition NewServer (ver u : string) (p : Z) : Server * PollPC :=
  ({| version := ver; url := u; period := p;
      mu := {| writer := false; waiting := false; readers := O |}; yes := false |},
   PcTest).

(** The process right after [NewServer], on a given network. *)
Definition start (n : string -> nat -> HeadResult) (ver u : string) (p : Z) : Sys :=
  let '(s, pc) := NewServer ver u p in
  {| state := {| srv := s; vars := Vars_init; net := n; heads := O; trace := [] |};
     ppc := pc; handlers := [] |}.

(** What the scheduler and the clients can do next. *)
Inductive Action : Type :=
  | ActPoll               (* the polling goroutine takes a step *)
  | ActRequest            (* a request arrives: a new handler starts *)
  | ActServe (i : nat).   (* handler i takes a step *)

Definition step (a : Action) (s : Sys) : result Sys :=
  match a with
  | ActPoll =>
      '(pc, st) ← poll_step (ppc s) (state s);
      Ok {| state := st; ppc := pc; handlers := handlers s |}
  | ActRequest =>
      Ok {| state := state s; ppc := ppc s; handlers := handlers s ++ [HHit] |}
  | ActServe i =>
      match handlers s !! i with
      | None => NotEnabled
      | Some h =>
          '(h', st) ← serve_step h (state s);
          Ok {| state := st; ppc := ppc s; handlers := <[i := h']> (handlers s) |}
      end
  end.

Fixpoint exec (sched : list Action) (s : Sys) : result Sys :=
  match sched with
  | [] => Ok s
  | a :: sched' => s' ← step a s; exec sched' s'
  end.

(** The states of the process of a server for [u] on network [n]. *)
Definition reachable (n : string -> nat -> HeadResult) (ver u : string) (p : Z)
    (s : Sys) : Prop :=
  exists sched, exec sched (start n ver u p) = Ok s.

(** ** The command line ([flag]) *)

(** A flag's value lives in a cell of its own; [flag.String] and
    [flag.Duration] return the address of the cell. *)
Inductive FlagValue : Type :=
  | VString (s : string)
  | VDuration (d : Z).

(** [flag.CommandLine]: the registered names with the address of their
    cell, and the cells. *)
Record FlagSet : Type := mkFlagSet {
  formal : gmap string nat;
  cells : list FlagValue
}.

Definition FlagSet_empty : FlagSet := {| formal := ∅; cells := [] |}.

(** [flag.Var]: a new cell holding the default; a name registered twice
    panics. *)
Definition flag_Var (name : string) (v : FlagValue) (fs : FlagSet)
    : result (nat * FlagSet) :=
  match formal fs !! name with
  | Some _ => Fatal ("flag redefined: " +:+ name)
  | None =>
      let p := length (cells fs) in
      Ok (p, {| formal := <[name := p]> (formal fs); cells := cells fs ++ [v] |})
  end.

Definition flag_String (name value usage : string) (fs : FlagSet)
    : result (nat * FlagSet) :=
  flag_Var name (VString value) fs.

Definition flag_Duration (name : string) (value : Z) (usage : string)
    (fs : FlagSet) : result (nat * FlagSet) :=
  flag_Var name (VDuration value) fs.

Definition deref_string (p : nat) (fs : FlagSet) : string :=
  match cells fs !! p with
  | Some (VString s) => s
  | _ => ""
  end.

Definition deref_duration (p : nat) (fs : FlagSet) : Z :=
  match cells fs !! p with
  | Some (VDuration d) => d
  | _ => 0
  end.

(** The functions of the Go library that [main] calls and that are taken
    as given: [time.ParseDuration] and [net.IP.String]. *)
Record Lib : Type := mkLib {
  ParseDuration : string -> option Z;
  IP_String : list Z -> string
}.

(** One [-name=value] of the command line: the value goes to the cell of
    the flag registered under [name]. *)
Definition flag_Set (L : Lib) (name value : string) (fs : FlagSet)
    : result FlagSet :=
  match formal fs !! name with
  | None => Fatal ("flag provided but not defined: -" +:+ name)
  | Some p =>
      match cells fs !! p with
      | Some (VString _) =>
          Ok {| formal := formal fs; cells := <[p := VString value]> (cells fs) |}
      | Some (VDuration _) =>
          match ParseDuration L value with
          | Some d =>
              Ok {| formal := formal fs; cells := <[p := VDuration d]> (cells fs) |}
          | None => Fatal ("invalid value for flag -" +:+ name)
          end
      | None => Fatal "flag without a value"
      end
  end.

(** [flag.Parse] on a command line given as its [-name=value] pairs. *)
Fixpoint flag_Parse (L : Lib) (args : list (string * string)) (fs : FlagSet)
    : result FlagSet :=
  match args with
  | [] => Ok fs
  | (name, value) :: args' =>
      fs ← flag_Set L name value fs; flag_Parse L args' fs
  end.

(** ** The network interfaces ([net]) *)

(** A [net.IP] is a byte slice; [[]] is the nil address. *)
Definition IP : Type := list Z.

Inductive Addr : Type :=
  | IPNet (ip : IP) (mask : list Z)      (* *net.IPNet *)
  | IPAddr (ip : IP) (zone : string)     (* *net.IPAddr *)
  | OtherAddr (text : string).           (* any other net.Addr *)

(** An interface, as [main] sees it: what [i.Addrs()] returns. *)
Definition Interface : Type := (list Addr * option string)%type.

(** ** [main] *)

Definition baseChangeURL : string := "https://go.googlesource.com/go/+/".

(** The package-level flag variables. *)
Record FlagVars : Type := mkFlagVars {
  httpAddr : nat;
  pollPeriod : nat;
  version_flag : nat;
  iphost : nat
}.

Definition Second : Z := 1000000000.

(** The initialisation of the package: the four [flag.String] and
    [flag.Duration] calls. *)
Definition flags_init : result (FlagVars * FlagSet) :=
  '(a, fs) ← flag_String "http" ":8080" "Listen address" FlagSet_empty;
  '(p, fs) ← flag_Duration "poll" (5 * Second) "Poll period" fs;
  '(v, fs) ← flag_String "version" "1.9.0" "Go version" fs;
  '(i, fs) ← flag_String "iphost" "127.0.0.1" "IP Host" fs;
  Ok ({| httpAddr := a; pollPeriod := p; version_flag := v; iphost := i |}, fs).

Definition log_err (err : option string) (log : list string) : list string :=
  match err with
  | Some e => log ++ [e]
  | None => log
  end.

(** The inner loop of [main]: [for _, addr := range addrs]. *)
Fixpoint scan_addrs (addrs : list Addr) (ipcheck : IP) : IP :=
  match addrs with
  | [] => ipcheck
  | addr :: addrs' =>
      let ipcheck :=
        match addr with
        | IPNet ip _ => ip
        | IPAddr ip _ => ip
        | OtherAddr _ => ipcheck
        end in
      scan_addrs addrs' ipcheck
  end.

(** The outer loop of [main]: [for _, i := range ifaces]. *)
Fixpoint scan_ifaces (ifaces : list Interface) (ipcheck : IP) (log : list string)
    : IP * list string :=
  match ifaces with
  | [] => (ipcheck, log)
  | (addrs, err) :: ifaces' =>
      let log := log_err err log in
      scan_ifaces ifaces' (scan_addrs addrs ipcheck) log
  end.

(** What [main] has set up when it reaches [http.ListenAndServe]. *)
Record Served : Type := mkServed {
  served : Server * PollPC;   (* the handler registered for "/" *)
  listen : string;            (* the address passed to ListenAndServe *)
  main_log : list string;     (* the lines printed with log.Print *)
  flag_vars : FlagVars;       (* the flag variables, iphost reassigned *)
  flag_set : FlagSet          (* flag.CommandLine *)
}.

(** [main], from the command line and the outcome of [net.Interfaces()]. *)
Definition main (L : Lib) (args : list (string * string))
    (interfaces : list Interface * option string) : result Served :=
  '(fv, fs) ← flags_init;
  fs ← flag_Parse L args fs;
  let '(ifaces, err) := interfaces in
  let ipcheck : IP := [] in
  let log := log_err err [] in
  let '(ipcheck, log) := scan_ifaces ifaces ipcheck log in
  '(p, fs) ← flag_String "Ip Host" (IP_String L ipcheck) "IP Host" fs;
  let fv := {| httpAddr := httpAddr fv; pollPeriod := pollPeriod fv;
               version_flag := version_flag fv; iphost := p |} in
  let changeURL := baseChangeURL +:+ "go" +:+ deref_string (iphost fv) fs in
  Ok {| served := NewServer (deref_string (iphost fv) fs) changeURL
                    (deref_duration (pollPeriod fv) fs);
        listen := deref_string (httpAddr fv) fs;
        main_log := log;
        flag_vars := fv;
        flag_set := fs |}.

(** The addresses the enumeration finds, in the order it meets them. *)
Definition addr_ips (a : Addr) : list IP :=
  match a with
  | IPNet ip _ => [ip]
  | IPAddr ip _ => [ip]
  | OtherAddr _ => []
  end.

Definition found_ips (ifaces : list Interface) : list IP :=
  flat_map (fun i : Interface => flat_map addr_ips (fst i)) ifaces.

(** The last address found; the nil address when none is. *)
Definition last_ip (ifaces : list Interface) : IP := List.last (found_ips ifaces) [].

(** * Vocabulary of the properties *)

(** The events of one probe with outcome [r]. *)
Definition probe_events (u : string) (r : HeadResult) : list Event :=
  EvHead u :: match r with HeadErr msg => [EvLog msg] | HeadResp _ => [] end.

(** What one probe does to the exported variables. *)
Definition probe_vars (r : HeadResult) (v : Vars) : Vars :=
  match r with
  | HeadErr msg => pollErrorCount_Add 1 (pollError_Set msg (pollCount_Add 1 v))
  | HeadResp _ => pollCount_Add 1 v
  end.

Definition probe_ok (r : HeadResult) : bool :=
  match r with
  | HeadErr _ => false
  | HeadResp code => code =? StatusOK
  end.

(** A network that refuses every connection. *)
Definition net_refused : string -> nat -> HeadResult :=
  fun _ _ => HeadErr "dial tcp: connection refused".

(** A network that answers every request with status [code]. *)
Definition net_status (code : Z) : string -> nat -> HeadResult :=
  fun _ _ => HeadResp code.

(** A network that fails to connect [k] times and then answers 200. *)
Definition net_after (k : nat) : string -> nat -> HeadResult :=
  fun _ i => if (i <? k)%nat then HeadErr "dial tcp: i/o timeout"
             else HeadResp StatusOK.


(** The state of a fresh process whose server polls ["http://go/"] every
    five seconds, on network [n]. *)
Definition fresh (n : string -> nat -> HeadResult) : Sys :=
  start n "10.0.0.7" "http://go/" (5 * Second).

(** The state a schedule leads to (the state itself if the schedule
    cannot be run). *)
Definition after (sched : list Action) (s : Sys) : Sys :=
  match exec sched s with
  | Ok s' => s'
  | _ => s
  end.

(** None of the first [k] requests for [u] was answered with status 200. *)
Definition no_ok_yet (n : string -> nat -> HeadResult) (u : string) (k : nat) : Prop :=
  forall i, (i < k)%nat -> n u i <> HeadResp StatusOK.

(** The last of the first [k] requests for [u] was the first one answered
    with status 200. *)
Definition first_ok (n : string -> nat -> HeadResult) (u : string) (k : nat) : Prop :=
  exists j, k = S j /\ n u j = HeadResp StatusOK /\ no_ok_yet n u j.

(** How many of the first [k] requests for [u] failed in transport. *)
Fixpoint transport_errors (n : string -> nat -> HeadResult) (u : string) (k : nat) : nat :=
  match k with
  | O => O
  | S k' =>
      (transport_errors n u k' +
       match n u k' with HeadErr _ => 1 | HeadResp _ => 0 end)%nat
  end.

(** The sum of a weight over the handlers. *)
Fixpoint total (f : ServePC -> nat) (hs : list ServePC) : nat :=
  match hs with
  | [] => O
  | h :: hs' => (f h + total f hs')%nat
  end.

(** A handler holds the read lock between [RLock] and [RUnlock]. *)
Definition holds_rlock (h : ServePC) : nat :=
  match h with
  | HRead | HRUnlock _ => 1%nat
  | _ => O
  end.

(** A handler has counted its request once it is past [hitCount.Add]. *)
Definition counted (h : ServePC) : nat :=
  match h with
  | HHit => O
  | _ => 1%nat
  end.

(** Where the polling goroutine is tells what it has done. *)
Definition pc_inv (n : string -> nat -> HeadResult) (u : string)
    (pc : PollPC) (st : State) : Prop :=
  match pc with
  | PcTest | PcSleep =>
      yes (srv st) = false /\ writer (mu (srv st)) = false /\
      no_ok_yet n u (heads st)
  | PcLock =>
      yes (srv st) = false /\ writer (mu (srv st)) = false /\
      first_ok n u (heads st)
  | PcStore =>
      yes (srv st) = false /\ writer (mu (srv st)) = true /\
      first_ok n u (heads st)
  | PcUnlock =>
      yes (srv st) = true /\ writer (mu (srv st)) = true /\
      first_ok n u (heads st)
  | PcDone | PcExit =>
      yes (srv st) = true /\ writer (mu (srv st)) = false /\
      first_ok n u (heads st)
  end.

(** The invariant of the process of a server made by
    [NewServer ver u p] on network [n]. *)
Record Inv (n : string -> nat -> HeadResult) (ver u : string) (p : Z) (s : Sys)
    : Prop := mkInv {
  inv_net : net (state s) = n;
  inv_version : version (srv (state s)) = ver;
  inv_url : url (srv (state s)) = u;
  inv_period : period (srv (state s)) = p;
  inv_pc : pc_inv n u (ppc s) (state s);
  inv_readers : readers (mu (srv (state s))) = total holds_rlock (handlers s);
  inv_excl : writer (mu (srv (state s))) = true ->
             readers (mu (srv (state s))) = O;
  inv_pollCount :
    pollCount (vars (state s)) = Int64.wrap (Z.of_nat (heads (state s)));
  inv_pollErrorCount :
    pollErrorCount (vars (state s))
      = Int64.wrap (Z.of_nat (transport_errors n u (heads (state s))));
  inv_hitCount :
    hitCount (vars (state s)) = Int64.wrap (Z.of_nat (total counted (handlers s)));
  inv_sleep : forall d, In (EvSleep d) (trace (state s)) -> d = p;
  inv_done :
    count_occ Event_eq_dec (trace (state s)) EvDone
      = (if decide (ppc s = PcExit) then 1%nat else O);
  inv_waiting : waiting (mu (srv (state s))) = true -> ppc s = PcLock
}.

(** What a step of the process does to the exported variables: the probe
    counts itself and its transport error, a handler counts its request. *)
Definition counts (a : Action) (s : Sys) (v : Vars) : Vars :=
  match a with
  | ActPoll =>
      match ppc s with
      | PcTest => probe_vars (net (state s) (url (srv (state s))) (heads (state s))) v
      | _ => v
      end
  | ActRequest => v
  | ActServe i =>
      match handlers s !! i with
      | Some HHit => hitCount_Add 1 v
      | _ => v
      end
  end.

(** A counter does not go down, short of the largest [int64]. *)
Definition grows (c c' : Z) : Prop :=
  (c' = c \/ c' = Int64.add c 1) /\ (c < Int64.max_signed -> c <= c').

(** The events of [k] failed probes, the first of which is request
    number [j]: each probe is followed by a sleep of [p]. *)
Fixpoint failed_rounds (n : string -> nat -> HeadResult) (u : string) (p : Z)
    (j k : nat) : list Event :=
  match k with
  | O => []
  | S k' => probe_events u (n u j) ++ EvSleep p :: failed_rounds n u p (S j) k'
  end.

(** The exported variables after [k] probes, the first of which is request
    number [j]. *)
Fixpoint probes_vars (n : string -> nat -> HeadResult) (u : string)
    (j k : nat) (v : Vars) : Vars :=
  match k with
  | O => v
  | S k' => probes_vars n u (S j) k' (probe_vars (n u j) v)
  end.

(** The events of the end of [poll]: the successful probe, the store
    under the lock, the hook. *)
Definition confirm_events (u : string) : list Event :=
  [EvHead u; EvLock; EvStore; EvUnlock; EvDone].

(** The calls of the probe and of the two hooks among the events. *)
Definition is_call (e : Event) : bool :=
  match e with
  | EvHead _ | EvSleep _ | EvDone => true
  | _ => false
  end.

Definition calls (tr : list Event) : list Event := List.filter is_call tr.

(** [k] times a probe and a sleep. *)
Fixpoint probe_sleep (u : string) (p : Z) (k : nat) : list Event :=
  match k with
  | O => []
  | S k' => EvHead u :: EvSleep p :: probe_sleep u p k'
  end.

(** The flag set after the initialisation of the package. *)
Definition flags0 : FlagSet :=
  {| formal := <["iphost" := 3%nat]> (<["version" := 2%nat]>
                 (<["poll" := 1%nat]> (<["http" := 0%nat]> ∅)));
     cells := [VString ":8080"; VDuration (5 * Second);
               VString "1.9.0"; VString "127.0.0.1"] |}.

(** The value the command line gives to the string flag [name]: that of
    its last occurrence, the default [d] when it does not occur. *)
Fixpoint cli_value (name : string) (args : list (string * string)) (d : string)
    : string :=
  match args with
  | [] => d
  | (n, v) :: args' => cli_value name args' (if decide (n = name) then v else d)
  end.

(** The value the command line gives to the duration flag [name]. *)
Fixpoint cli_duration (L : Lib) (name : string) (args : list (string * string))
    (d : Z) : Z :=
  match args with
  | [] => d
  | (n, v) :: args' =>
      cli_duration L name args'
        (if decide (n = name) then default d (ParseDuration L v) else d)
  end.

(** A library for the examples: durations are written in seconds with one
    digit, addresses are shown by their length. *)
Definition lib_example : Lib :=
  {| ParseDuration := fun s =>
       if decide (s = "1s") then Some Second
       else if decide (s = "2s") then Some (2 * Second) else None;
     IP_String := fun ip =>
       match ip with
       | [] => "<nil>"
       | [10; 0; 0; 7] => "10.0.0.7"
       | [127; 0; 0; 1] => "127.0.0.1"
       | _ => "?"
       end |}.

(** What [main] has set up, given what the command line and the
    enumeration of the interfaces amount to. *)
Definition main_result (L : Lib) (args : list (string * string))
    (interfaces : list Interface * option string) : Served :=
  let ipstr := IP_String L (last_ip (fst interfaces)) in
  {| served := NewServer ipstr (baseChangeURL +:+ "go" +:+ ipstr)
                 (cli_duration L "poll" args (5 * Second));
     listen := cli_value "http" args ":8080";
     main_log := log_err (snd interfaces) [] ++ omap snd (fst interfaces);
     flag_vars := {| httpAddr := 0; pollPeriod := 1; version_flag := 2; iphost := 4 |};
     flag_set :=
       {| formal := <["Ip Host" := 4%nat]> (formal flags0);
          cells := [VString (cli_value "http" args ":8080");
                    VDuration (cli_duration L "poll" args (5 * Second));
                    VString (cli_value "version" args "1.9.0");
                    VString (cli_value "iphost" args "127.0.0.1");
                    VString ipstr] |} |}.

(** The events of the polling goroutine when it has made [k] requests and
    is at [pc]: they depend on the network alone. *)
Definition poll_trace (n : string -> nat -> HeadResult) (u : string) (p : Z)
    (k : nat) (pc : PollPC) : list Event :=
  match pc with
  | PcTest => failed_rounds n u p 0 k
  | PcSleep => failed_rounds n u p 0 (pred k) ++ probe_events u (n u (pred k))
  | PcLock => failed_rounds n u p 0 (pred k) ++ [EvHead u]
  | PcStore => failed_rounds n u p 0 (pred k) ++ [EvHead u; EvLock]
  | PcUnlock => failed_rounds n u p 0 (pred k) ++ [EvHead u; EvLock; EvStore]
  | PcDone => failed_rounds n u p 0 (pred k) ++ [EvHead u; EvLock; EvStore; EvUnlock]
  | PcExit => failed_rounds n u p 0 (pred k) ++ confirm_events u
  end.

(** * Vocabulary of the further properties *)

(** The polling goroutine holds the lock for writing between [Lock] and
    [Unlock]. *)
Definition holds_lock (pc : PollPC) : bool :=
  match pc with
  | PcStore | PcUnlock => true
  | _ => false
  end.

(** The polling goroutine has stored [yes]. *)
Definition stored (pc : PollPC) : bool :=
  match pc with
  | PcUnlock | PcDone | PcExit => true
  | _ => false
  end.

(** The data a handler has read, once it has. *)
Definition data_of (h : ServePC) : option Data :=
  match h with
  | HRUnlock d | HExecute d | HReturned d => Some d
  | _ => None
  end.


(** What the handlers have read is what the server was made with, and a
    handler has read [true] only if [yes] is true. *)
Definition data_inv (ver u : string) (s : Sys) : Prop :=
  forall i h d, handlers s !! i = Some h -> data_of h = Some d ->
    URL d = u /\ Version d = ver /\ (Yes d = true -> yes (srv (state s)) = true).

(** The names of the flags there are when [flag.Parse] runs. *)
Definition flag_names : list string := ["http"; "poll"; "version"; "iphost"].

(** The enumeration with its errors taken away. *)
Definition without_errors (interfaces : list Interface * option string)
    : list Interface * option string :=
  (map (fun i : Interface => (fst i, None)) (fst interfaces), None).
(** * Properties *)

(** ** [int64] arithmetic *)

Module Int64Facts.
Import Int64.

Lemma wrap_in_range z : in_range (wrap z).
Proof.
  unfold in_range, wrap, min_signed, max_signed, modulus.
  pose proof (Z.mod_pos_bound (z + 2 ^ 63) (2 ^ 64) ltac:(lia)). lia.
Qed.

Lemma wrap_id z : in_range z -> wrap z = z.
Proof.
  unfold in_range, wrap, min_signed, max_signed, modulus. intros H.
  rewrite Z.mod_small by lia. lia.
Qed.

Lemma wrap_wrap_add a b : wrap (wrap a + b) = wrap (a + b).
Proof.
  unfold wrap, modulus.
  replace ((a + 2 ^ 63) mod 2 ^ 64 - 2 ^ 63 + b + 2 ^ 63)
    with ((a + 2 ^ 63) mod 2 ^ 64 + b) by lia.
  rewrite Zplus_mod_idemp_l. f_equal. f_equal. lia.
Qed.

Lemma add_in_range a b : in_range (add a b).
Proof. apply wrap_in_range. Qed.

Lemma add_no_overflow a : in_range a -> a < max_signed -> add a 1 = a + 1.
Proof.
  unfold add. intros [Hlo Hhi] Hlt. apply wrap_id. split; lia.
Qed.

Lemma add_overflow : add max_signed 1 = min_signed.
Proof. reflexivity. Qed.

Lemma add_wrap_succ (k : nat) : add (wrap (Z.of_nat k)) 1 = wrap (Z.of_nat (S k)).
Proof. unfold add. rewrite wrap_wrap_add. f_equal. lia. Qed.

End Int64Facts.

(** ** The probe *)

(** [isTagged] in one equation: one outcome of the network is consumed. *)
Lemma isTagged_eq u st :
  isTagged u st =
    (probe_ok (net st u (heads st)),
     {| srv := srv st; vars := probe_vars (net st u (heads st)) (vars st);
        net := net st; heads := S (heads st);
        trace := trace st ++ probe_events u (net st u (heads st)) |}).
Proof.
  unfold isTagged, http_Head, probe_ok, probe_vars, probe_events. simpl.
  destruct (net st u (heads st)) as [msg|code]; simpl; [|reflexivity].
  unfold emit, with_vars; simpl. rewrite <- app_assoc. reflexivity.
Qed.

Lemma probe_ok_true r : probe_ok r = true <-> r = HeadResp StatusOK.
Proof.
  destruct r as [msg|code]; simpl; split; try discriminate.
  - intros H. apply Z.eqb_eq in H. congruence.
  - intros H. injection H as ->. reflexivity.
Qed.

Lemma probe_ok_false r : probe_ok r = false <-> r <> HeadResp StatusOK.
Proof.
  rewrite <- probe_ok_true. destruct (probe_ok r); split; congruence.
Qed.

(** C3. For every URL, one call of [isTagged] reports success exactly when
    the request is answered with status 200; when the request fails in
    transport it reports failure, stores the error text in [pollError] and
    adds one to [pollErrorCount]; and it makes exactly one request. *)
Theorem isTagged_single_attempt (u : string) (st : State) :
  (fst (isTagged u st) = true <-> net st u (heads st) = HeadResp StatusOK) /\
  (forall msg, net st u (heads st) = HeadErr msg ->
     fst (isTagged u st) = false /\
     pollError (vars (snd (isTagged u st))) = msg /\
     pollErrorCount (vars (snd (isTagged u st)))
       = Int64.add (pollErrorCount (vars st)) 1 /\
     In (EvLog msg) (trace (snd (isTagged u st)))) /\
  heads (snd (isTagged u st)) = S (heads st) /\
  (exists evs, trace (snd (isTagged u st)) = trace st ++ EvHead u :: evs /\
               forall v, ~ In (EvHead v) evs).
Proof.
  rewrite isTagged_eq. simpl. split; [apply probe_ok_true|].
  split.
  - intros msg ->. simpl. repeat split; try reflexivity.
    apply in_or_app. right. simpl. auto.
  - split; [reflexivity|].
    exists (match net st u (heads st) with HeadErr m => [EvLog m] | HeadResp _ => [] end).
    split; [reflexivity|].
    intros v. destruct (net st u (heads st)); simpl; intuition discriminate.
Qed.

Lemma isTagged_single_attempt_witness :
  fst (isTagged "u" (state (start net_refused "v" "u" 5))) = false /\
  pollError (vars (snd (isTagged "u" (state (start net_refused "v" "u" 5)))))
    = "dial tcp: connection refused" /\
  pollErrorCount (vars (snd (isTagged "u" (state (start net_refused "v" "u" 5))))) = 1.
Proof.
  destruct (isTagged_single_attempt "u" (state (start net_refused "v" "u" 5)))
    as (_ & H & _).
  destruct (H "dial tcp: connection refused" eq_refl) as (H1 & H2 & H3 & _).
  split; [exact H1|]. split; [exact H2|]. rewrite H3. reflexivity.
Defined.

(** C6, as stated, fails: a response with status 404 makes the probe fail,
    but [pollErrorCount] and [pollError] stay as they were, while a
    transport error counts. *)
Lemma status_failure_not_recorded :
  fst (isTagged "http://go/" (state (fresh (net_status 404)))) = false /\
  pollErrorCount (vars (snd (isTagged "http://go/" (state (fresh (net_status 404)))))) = 0 /\
  pollError (vars (snd (isTagged "http://go/" (state (fresh (net_status 404)))))) = "" /\
  fst (isTagged "http://go/" (state (fresh net_refused))) = false /\
  pollErrorCount (vars (snd (isTagged "http://go/" (state (fresh net_refused))))) = 1 /\
  pollError (vars (snd (isTagged "http://go/" (state (fresh net_refused)))))
    = "dial tcp: connection refused".
Proof. repeat split. Qed.

(** C6, amended. A probe answered with a status other than 200 reports
    failure like a transport error does and the loop goes on to the sleep
    and the next probe, but the failure is not recorded: only [pollCount]
    changes, [pollError] and [pollErrorCount] stay as they were and nothing
    is logged. *)
Theorem isTagged_status_not_ok (st : State) (code : Z) :
  net st (url (srv st)) (heads st) = HeadResp code ->
  code <> StatusOK ->
  fst (isTagged (url (srv st)) st) = false /\
  vars (snd (isTagged (url (srv st)) st)) = pollCount_Add 1 (vars st) /\
  pollError (vars (snd (isTagged (url (srv st)) st))) = pollError (vars st) /\
  pollErrorCount (vars (snd (isTagged (url (srv st)) st)))
    = pollErrorCount (vars st) /\
  trace (snd (isTagged (url (srv st)) st)) = trace st ++ [EvHead (url (srv st))] /\
  poll_step PcTest st = Ok (PcSleep, snd (isTagged (url (srv st)) st)) /\
  poll_step PcSleep (snd (isTagged (url (srv st)) st))
    = Ok (PcTest, pollSleep (period (srv st)) (snd (isTagged (url (srv st)) st))).
Proof.
  intros Hnet Hcode.
  assert (Hne : (code =? StatusOK) = false) by (apply Z.eqb_neq; exact Hcode).
  unfold poll_step. rewrite isTagged_eq, Hnet. simpl. rewrite Hne.
  repeat split; reflexivity.
Qed.

Lemma isTagged_status_not_ok_witness :
  fst (isTagged "http://go/" (state (fresh (net_status 404)))) = false /\
  vars (snd (isTagged "http://go/" (state (fresh (net_status 404)))))
    = {| hitCount := 0; pollCount := 1; pollError := ""; pollErrorCount := 0 |}.
Proof.
  destruct (isTagged_status_not_ok (state (fresh (net_status 404))) 404)
    as (H1 & H2 & _).
  - reflexivity.
  - unfold StatusOK. lia.
  - split; [exact H1 | exact H2].
Defined.

(** C10. A probe answered with status 200 adds one to [pollCount] and
    leaves [pollError], [pollErrorCount] and [hitCount] as they were; so
    the text of an earlier transport error is still in [pollError] after a
    later successful probe. *)
Theorem isTagged_success_frame (u : string) (st : State) :
  (net st u (heads st) = HeadResp StatusOK ->
     fst (isTagged u st) = true /\
     pollCount (vars (snd (isTagged u st))) = Int64.add (pollCount (vars st)) 1 /\
     pollError (vars (snd (isTagged u st))) = pollError (vars st) /\
     pollErrorCount (vars (snd (isTagged u st))) = pollErrorCount (vars st) /\
     hitCount (vars (snd (isTagged u st))) = hitCount (vars st)) /\
  (forall msg,
     net st u (heads st) = HeadErr msg ->
     net st u (S (heads st)) = HeadResp StatusOK ->
     fst (isTagged u (snd (isTagged u st))) = true /\
     pollError (vars (snd (isTagged u (snd (isTagged u st))))) = msg /\
     pollErrorCount (vars (snd (isTagged u (snd (isTagged u st)))))
       = Int64.add (pollErrorCount (vars st)) 1).
Proof.
  split.
  - intros Hnet. rewrite isTagged_eq, Hnet. simpl. repeat split; reflexivity.
  - intros msg H1 H2. rewrite !isTagged_eq. simpl. rewrite H1, H2. simpl.
    repeat split; reflexivity.
Qed.

Lemma isTagged_success_frame_witness :
  pollError (vars (snd (isTagged "http://go/"
      (snd (isTagged "http://go/" (state (fresh (net_after 1)))))))) = "dial tcp: i/o timeout" /\
  pollErrorCount (vars (snd (isTagged "http://go/"
      (snd (isTagged "http://go/" (state (fresh (net_after 1)))))))) = 1.
Proof.
  destruct (isTagged_success_frame "http://go/" (state (fresh (net_after 1))))
    as [_ H].
  destruct (H "dial tcp: i/o timeout" eq_refl eq_refl) as (_ & H2 & H3).
  split; [exact H2 | rewrite H3; reflexivity].
Defined.

(** ** The steps of the two kinds of goroutine *)

Lemma bind_Ok {A B : Type} (r : result A) (k : A -> result B) (b : B) :
  r ≫= k = Ok b -> exists a, r = Ok a /\ k a = Ok b.
Proof. destruct r as [a| |m]; simpl; intros H; [eauto | discriminate..]. Qed.

Lemma mu_Lock_Ok m m' :
  mu_Lock m = Ok m' ->
  writer m = false /\ readers m = O /\
  m' = {| writer := true; waiting := false; readers := O |}.
Proof.
  unfold mu_Lock. destruct (writer m); [discriminate|].
  destruct (readers m); [|discriminate]. intros [= <-]. auto.
Qed.

Lemma mu_Lock_begin_Ok m m' :
  mu_Lock_begin m = Ok m' ->
  writer m = false /\ waiting m = false /\
  m' = {| writer := false; waiting := true; readers := readers m |}.
Proof.
  unfold mu_Lock_begin. destruct (writer m); [discriminate|].
  destruct (waiting m); [discriminate|]. intros [= <-]. auto.
Qed.

Lemma mu_Unlock_Ok m m' :
  mu_Unlock m = Ok m' ->
  writer m = true /\
  m' = {| writer := false; waiting := waiting m; readers := readers m |}.
Proof.
  unfold mu_Unlock. destruct (writer m); [|discriminate]. intros [= <-]. auto.
Qed.

Lemma mu_RLock_Ok m m' :
  mu_RLock m = Ok m' ->
  writer m = false /\ waiting m = false /\
  m' = {| writer := false; waiting := false; readers := S (readers m) |}.
Proof.
  unfold mu_RLock. destruct (writer m); [discriminate|].
  destruct (waiting m); [discriminate|]. intros [= <-]. auto.
Qed.

Lemma mu_RUnlock_Ok m m' :
  mu_RUnlock m = Ok m' ->
  exists n, readers m = S n /\
    m' = {| writer := writer m; waiting := waiting m; readers := n |}.
Proof.
  unfold mu_RUnlock. destruct (readers m) as [|n]; [discriminate|].
  intros [= <-]. eauto.
Qed.

(** The polling goroutine, statement by statement. *)
Lemma poll_step_Ok pc st pc' st' :
  poll_step pc st = Ok (pc', st') ->
  match pc with
  | PcTest =>
      pc' = (if probe_ok (net st (url (srv st)) (heads st)) then PcLock else PcSleep) /\
      st' = snd (isTagged (url (srv st)) st)
  | PcSleep => pc' = PcTest /\ st' = pollSleep (period (srv st)) st
  | PcLock =>
      (pc' = PcStore /\ writer (mu (srv st)) = false /\ readers (mu (srv st)) = O /\
       st' = emit EvLock
               (with_srv (set_mu {| writer := true; waiting := false; readers := O |}
                                 (srv st)) st)) \/
      (pc' = PcLock /\ writer (mu (srv st)) = false /\ waiting (mu (srv st)) = false /\
       readers (mu (srv st)) <> O /\
       st' = with_srv (set_mu {| writer := false; waiting := true;
                                 readers := readers (mu (srv st)) |}
                              (srv st)) st)
  | PcStore => pc' = PcUnlock /\ st' = store_yes st
  | PcUnlock =>
      pc' = PcDone /\ writer (mu (srv st)) = true /\
      st' = emit EvUnlock
              (with_srv (set_mu {| writer := false; waiting := waiting (mu (srv st));
                                   readers := readers (mu (srv st)) |}
                                (srv st)) st)
  | PcDone => pc' = PcExit /\ st' = pollDone st
  | PcExit => False
  end.
Proof.
  destruct pc; simpl.
  - rewrite isTagged_eq. intros [= <- <-]. auto.
  - intros [= <- <-]. auto.
  - destruct (readers (mu (srv st))) as [|k] eqn:Hk.
    + intros H. apply bind_Ok in H as (st1 & H1 & [= <- <-]).
      unfold Lock in H1. apply bind_Ok in H1 as (m & Hm & [= <-]).
      apply mu_Lock_Ok in Hm as (? & ? & ->). left. auto.
    + intros H. apply bind_Ok in H as (st1 & H1 & [= <- <-]).
      unfold Lock_begin in H1. apply bind_Ok in H1 as (m & Hm & [= <-]).
      apply mu_Lock_begin_Ok in Hm as (? & ? & ->). rewrite Hk. right.
      repeat split; auto.
  - intros [= <- <-]. auto.
  - intros H. apply bind_Ok in H as (st1 & H1 & [= <- <-]).
    unfold Unlock in H1. apply bind_Ok in H1 as (m & Hm & [= <-]).
    apply mu_Unlock_Ok in Hm as (? & ->). auto.
  - intros [= <- <-]. auto.
  - discriminate.
Qed.

(** A request handler, statement by statement. *)
Lemma serve_step_Ok h st h' st' :
  serve_step h st = Ok (h', st') ->
  match h with
  | HHit => h' = HRLock /\ st' = with_vars (hitCount_Add 1 (vars st)) st
  | HRLock =>
      h' = HRead /\ writer (mu (srv st)) = false /\
      st' = with_srv (set_mu {| writer := false; waiting := false;
                                readers := S (readers (mu (srv st))) |}
                             (srv st)) st
  | HRead => h' = HRUnlock (read_data st) /\ st' = st
  | HRUnlock d =>
      h' = HExecute d /\
      exists n, readers (mu (srv st)) = S n /\
        st' = with_srv (set_mu {| writer := writer (mu (srv st));
                                  waiting := waiting (mu (srv st)); readers := n |}
                               (srv st)) st
  | HExecute d => h' = HReturned d /\ st' = st
  | HReturned _ => False
  end.
Proof.
  destruct h; simpl.
  - intros [= <- <-]. auto.
  - intros H. apply bind_Ok in H as (st1 & H1 & [= <- <-]).
    unfold RLock in H1. apply bind_Ok in H1 as (m & Hm & [= <-]).
    apply mu_RLock_Ok in Hm as (? & _ & ->). auto.
  - intros [= <- <-]. auto.
  - intros H. apply bind_Ok in H as (st1 & H1 & [= <- <-]).
    unfold RUnlock in H1. apply bind_Ok in H1 as (m & Hm & [= <-]).
    apply mu_RUnlock_Ok in Hm as (n & ? & ->). eauto.
  - intros [= <- <-]. auto.
  - discriminate.
Qed.

(** One step of the process is a step of the poller, an arrival, or a
    step of a handler. *)
Lemma step_Ok a s s' :
  step a s = Ok s' ->
  match a with
  | ActPoll =>
      exists pc st, poll_step (ppc s) (state s) = Ok (pc, st) /\
        s' = {| state := st; ppc := pc; handlers := handlers s |}
  | ActRequest =>
      s' = {| state := state s; ppc := ppc s; handlers := handlers s ++ [HHit] |}
  | ActServe i =>
      exists h h' st, handlers s !! i = Some h /\
        serve_step h (state s) = Ok (h', st) /\
        s' = {| state := st; ppc := ppc s; handlers := <[i := h']> (handlers s) |}
  end.
Proof.
  destruct a as [| |i]; simpl.
  - intros H. apply bind_Ok in H as ([pc st] & H1 & [= <-]). eauto.
  - intros [= <-]. reflexivity.
  - destruct (handlers s !! i) as [h|]; [|discriminate].
    intros H. apply bind_Ok in H as ([h' st] & H1 & [= <-]). eauto 6.
Qed.

Lemma exec_app sched1 sched2 s :
  exec (sched1 ++ sched2) s = exec sched1 s ≫= exec sched2.
Proof.
  revert s. induction sched1 as [|a sched1 IH]; intros s; simpl; [reflexivity|].
  destruct (step a s) as [s1| |m]; simpl; [apply IH | reflexivity..].
Qed.

Lemma exec_snoc sched a s s' :
  exec (sched ++ [a]) s = Ok s' ->
  exists s1, exec sched s = Ok s1 /\ step a s1 = Ok s'.
Proof.
  rewrite exec_app. intros H. apply bind_Ok in H as (s1 & H1 & H2).
  exists s1. split; [exact H1|]. simpl in H2.
  destruct (step a s1) as [s2| |m]; simpl in H2; congruence.
Qed.

(** Induction over the executions of the process, last step first. *)
Lemma exec_ind_r (P : Sys -> Prop) (s0 : Sys) :
  P s0 ->
  (forall a s s', P s -> step a s = Ok s' -> P s') ->
  forall sched s, exec sched s0 = Ok s -> P s.
Proof.
  intros H0 Hstep sched. induction sched as [|a sched IH] using rev_ind; intros s.
  - simpl. intros [= <-]. exact H0.
  - intros H. apply exec_snoc in H as (s1 & H1 & H2). eauto.
Qed.

(** ** The confirmed state *)

Lemma isTagged_srv u st : srv (snd (isTagged u st)) = srv st.
Proof. rewrite isTagged_eq. reflexivity. Qed.

Lemma isTagged_net u st : net (snd (isTagged u st)) = net st.
Proof. rewrite isTagged_eq. reflexivity. Qed.

Lemma isTagged_heads u st : heads (snd (isTagged u st)) = S (heads st).
Proof. rewrite isTagged_eq. reflexivity. Qed.

Lemma poll_step_yes pc st pc' st' :
  poll_step pc st = Ok (pc', st') ->
  yes (srv st) = true -> yes (srv st') = true.
Proof.
  intros H Hy. apply poll_step_Ok in H. destruct pc.
  - destruct H as [_ ->]. rewrite isTagged_srv. exact Hy.
  - destruct H as [_ ->]. exact Hy.
  - destruct H as [(_ & _ & _ & ->)|(_ & _ & _ & _ & ->)]; exact Hy.
  - destruct H as [_ ->]. reflexivity.
  - destruct H as (_ & _ & ->). exact Hy.
  - destruct H as [_ ->]. exact Hy.
  - contradiction.
Qed.

Lemma serve_step_yes h st h' st' :
  serve_step h st = Ok (h', st') -> yes (srv st') = yes (srv st).
Proof.
  intros H. apply serve_step_Ok in H. destruct h.
  - destruct H as [_ ->]. reflexivity.
  - destruct H as (_ & _ & ->). reflexivity.
  - destruct H as [_ ->]. reflexivity.
  - destruct H as (_ & n & _ & ->). reflexivity.
  - destruct H as [_ ->]. reflexivity.
  - contradiction.
Qed.

Lemma step_yes a s s' :
  step a s = Ok s' ->
  yes (srv (state s)) = true -> yes (srv (state s')) = true.
Proof.
  intros H Hy. apply step_Ok in H. destruct a as [| |i].
  - destruct H as (pc & st & Hp & ->). simpl. eapply poll_step_yes; eauto.
  - subst s'. exact Hy.
  - destruct H as (h & h' & st & _ & Hs & ->). simpl.
    rewrite (serve_step_yes _ _ _ _ Hs). exact Hy.
Qed.

(** What [ServeHTTP] returns when it is not interrupted. *)
Lemma ServeHTTP_Ok st d st' :
  ServeHTTP st = Ok (d, st') ->
  d = read_data st /\ writer (mu (srv st)) = false /\
  srv st' = srv st /\ vars st' = hitCount_Add 1 (vars st) /\
  net st' = net st /\ heads st' = heads st /\ trace st' = trace st.
Proof.
  unfold ServeHTTP. intros H.
  apply bind_Ok in H as (st1 & H1 & H).
  apply bind_Ok in H as (st2 & H2 & [= <- <-]).
  unfold RLock in H1. apply bind_Ok in H1 as (m1 & Hm1 & [= <-]).
  apply mu_RLock_Ok in Hm1 as (Hw & Hwt & ->).
  unfold RUnlock in H2. apply bind_Ok in H2 as (m2 & Hm2 & [= <-]).
  apply mu_RUnlock_Ok in Hm2 as (n & Hn & ->). simpl in *.
  injection Hn as <-.
  repeat split; try reflexivity; try assumption.
  destruct st as [[ver u p [w wt r] y] v nt hd tr]; simpl in *. subst w wt. reflexivity.
Qed.

(** C1. Once [yes] is true it stays true: no step of the polling goroutine
    or of a request handler, in any interleaving, sets it back, and every
    read of [yes] made afterwards by [ServeHTTP] returns true. *)
Theorem yes_monotonic (sched : list Action) (s s' : Sys) :
  yes (srv (state s)) = true ->
  exec sched s = Ok s' ->
  yes (srv (state s')) = true /\
  Yes (read_data (state s')) = true /\
  (forall d st, ServeHTTP (state s') = Ok (d, st) -> Yes d = true) /\
  (forall h st, serve_step HRead (state s') = Ok (h, st) ->
     exists d, h = HRUnlock d /\ Yes d = true).
Proof.
  intros Hy Hx.
  assert (Hy' : yes (srv (state s')) = true).
  { revert s Hy Hx. induction sched as [|a sched IH]; intros s Hy; simpl.
    - intros [= <-]. exact Hy.
    - intros H. apply bind_Ok in H as (s1 & H1 & H2).
      apply (IH s1); [eapply step_yes; eauto | exact H2]. }
  split; [exact Hy'|]. split; [exact Hy'|]. split.
  - intros d st H. apply ServeHTTP_Ok in H as (-> & _). exact Hy'.
  - intros h st H. apply serve_step_Ok in H as [-> _]. eauto.
Qed.

Lemma yes_monotonic_witness :
  yes (srv (state (after [ActPoll; ActPoll; ActPoll] (fresh (net_status 200))))) = true /\
  yes (srv (state (after [ActRequest; ActPoll; ActServe 0; ActPoll; ActServe 0;
                          ActServe 0; ActRequest; ActServe 0]
                     (after [ActPoll; ActPoll; ActPoll] (fresh (net_status 200))))))
    = true.
Proof.
  split; [reflexivity|].
  destruct (yes_monotonic
              [ActRequest; ActPoll; ActServe 0; ActPoll; ActServe 0;
               ActServe 0; ActRequest; ActServe 0]
              (after [ActPoll; ActPoll; ActPoll] (fresh (net_status 200)))
              (after [ActRequest; ActPoll; ActServe 0; ActPoll; ActServe 0;
                      ActServe 0; ActRequest; ActServe 0]
                 (after [ActPoll; ActPoll; ActPoll] (fresh (net_status 200)))))
    as [H _].
  - reflexivity.
  - vm_compute. reflexivity.
  - exact H.
Defined.

(** ** The invariant of the process *)

Lemma total_app f hs1 hs2 : total f (hs1 ++ hs2) = (total f hs1 + total f hs2)%nat.
Proof. induction hs1 as [|h hs1 IH]; simpl; [reflexivity | rewrite IH; lia]. Qed.

Lemma total_insert f (hs : list ServePC) i h h' :
  hs !! i = Some h ->
  (total f (<[i := h']> hs) + f h = total f hs + f h')%nat.
Proof.
  revert i. induction hs as [|x hs IH]; intros [|i]; simpl; try discriminate.
  - intros [= ->]. lia.
  - intros H. specialize (IH i H). lia.
Qed.

Lemma no_ok_yet_S n u k :
  no_ok_yet n u k -> n u k <> HeadResp StatusOK -> no_ok_yet n u (S k).
Proof.
  intros H Hk i Hi. destruct (decide (i = k)) as [->|Hne]; [exact Hk|].
  apply H. lia.
Qed.

Lemma first_ok_not_no_ok n u k : first_ok n u k -> no_ok_yet n u k -> False.
Proof. intros (j & -> & Hj & _) H. apply (H j); [lia | exact Hj]. Qed.

Lemma Inv_start n ver u p : Inv n ver u p (start n ver u p).
Proof.
  constructor; simpl; try reflexivity.
  - repeat split. intros i Hi. lia.
  - intros d [].
  - discriminate.
Qed.

Lemma count_occ_snoc (l : list Event) (e x : Event) :
  count_occ Event_eq_dec (l ++ [e]) x
    = (count_occ Event_eq_dec l x + if decide (e = x) then 1 else 0)%nat.
Proof.
  rewrite count_occ_app. simpl.
  destruct (Event_eq_dec e x), (decide (e = x)); try contradiction; lia.
Qed.

Lemma count_occ_probe_events (l : list Event) u r :
  count_occ Event_eq_dec (l ++ probe_events u r) EvDone
    = count_occ Event_eq_dec l EvDone.
Proof.
  rewrite count_occ_app. unfold probe_events.
  destruct r; simpl; lia.
Qed.

Lemma in_sleep_probe_events (l : list Event) u r d :
  In (EvSleep d) (l ++ probe_events u r) -> In (EvSleep d) l.
Proof.
  intros H. apply in_app_or in H as [H|H]; [exact H|].
  unfold probe_events in H. destruct r; simpl in H; intuition discriminate.
Qed.

Lemma Inv_poll_step n ver u p s pc st :
  Inv n ver u p s ->
  poll_step (ppc s) (state s) = Ok (pc, st) ->
  Inv n ver u p {| state := st; ppc := pc; handlers := handlers s |}.
Proof.
  intros [Hn Hv Hu Hp Hpc Hr He Hpcn Hpe Hh Hsl Hd Hwt] H.
  apply poll_step_Ok in H.
  destruct s as [st0 pc0 hs]; simpl in *.
  destruct pc0; simpl in Hpc.
  - (* the probe *)
    destruct H as [-> ->]. rewrite isTagged_eq.
    destruct Hpc as (Hy & Hw & Hno).
    rewrite Hu, Hn.
    constructor; simpl; try assumption; try reflexivity.
    + destruct (probe_ok (n u (heads st0))) eqn:E; simpl.
      * apply probe_ok_true in E. repeat split; try assumption.
        exists (heads st0). auto.
      * apply probe_ok_false in E. repeat split; try assumption.
        apply no_ok_yet_S; assumption.
    + destruct (n u (heads st0)); simpl; rewrite Hpcn;
        apply Int64Facts.add_wrap_succ.
    + destruct (n u (heads st0)); simpl; rewrite Hpe.
      * rewrite Int64Facts.add_wrap_succ. f_equal. lia.
      * f_equal. lia.
    + destruct (n u (heads st0)); simpl; exact Hh.
    + intros d Hin. apply in_sleep_probe_events in Hin. auto.
    + rewrite count_occ_probe_events, Hd.
      destruct (probe_ok (n u (heads st0))); reflexivity.
    + intros Hw'. specialize (Hwt Hw'). discriminate.
  - (* the sleep *)
    destruct H as [-> ->]. constructor; simpl; try assumption; try reflexivity.
    + intros d Hin. apply in_app_or in Hin as [Hin|[Hin|[]]]; [auto|].
      injection Hin as <-. exact Hp.
    + rewrite count_occ_snoc, Hd. reflexivity.
    + intros Hw'. specialize (Hwt Hw'). discriminate.
  - (* Lock *)
    destruct Hpc as (Hy & _ & Hf).
    destruct H as [(-> & Hw & Hz & ->)|(-> & Hw & Hw0 & Hnz & ->)].
    + (* no reader inside: the lock is taken *)
      constructor; simpl; try assumption; try reflexivity.
      * repeat split; assumption.
      * rewrite <- Hr. symmetry. exact Hz.
      * intros d Hin. apply in_app_or in Hin as [Hin|[Hin|[]]]; [auto|discriminate].
      * rewrite count_occ_snoc, Hd. reflexivity.
      * discriminate.
    + (* readers inside: the call begins *)
      constructor; simpl; try assumption; try reflexivity.
      * repeat split; assumption.
      * discriminate.
  - (* the store *)
    destruct H as [-> ->]. destruct Hpc as (Hy & Hw & Hf).
    constructor; simpl; try assumption; try reflexivity.
    + repeat split; assumption.
    + intros d Hin. apply in_app_or in Hin as [Hin|[Hin|[]]]; [auto|discriminate].
    + rewrite count_occ_snoc, Hd. reflexivity.
    + intros Hw'. specialize (Hwt Hw'). discriminate.
  - (* Unlock *)
    destruct H as (-> & Hw & ->). destruct Hpc as (Hy & _ & Hf).
    constructor; simpl; try assumption; try reflexivity.
    + repeat split; assumption.
    + discriminate.
    + intros d Hin. apply in_app_or in Hin as [Hin|[Hin|[]]]; [auto|discriminate].
    + rewrite count_occ_snoc, Hd. reflexivity.
    + intros Hw'. specialize (Hwt Hw'). discriminate.
  - (* the hook *)
    destruct H as [-> ->]. constructor; simpl; try assumption; try reflexivity.
    + intros d Hin. apply in_app_or in Hin as [Hin|[Hin|[]]]; [auto|discriminate].
    + rewrite count_occ_snoc, Hd. reflexivity.
    + intros Hw'. specialize (Hwt Hw'). discriminate.
  - contradiction.
Qed.

Lemma pc_inv_frame n u pc st st' :
  yes (srv st') = yes (srv st) ->
  writer (mu (srv st')) = writer (mu (srv st)) ->
  heads st' = heads st ->
  pc_inv n u pc st -> pc_inv n u pc st'.
Proof.
  intros Hy Hw Hh. unfold pc_inv. rewrite Hy, Hw, Hh. auto.
Qed.

Lemma pc_inv_writer n u pc st :
  pc_inv n u pc st ->
  writer (mu (srv st)) = true -> pc = PcStore \/ pc = PcUnlock.
Proof.
  destruct pc; simpl; intros (_ & Hw & _) H; auto; congruence.
Qed.

Lemma Inv_serve_step n ver u p s i h h' st :
  Inv n ver u p s ->
  handlers s !! i = Some h ->
  serve_step h (state s) = Ok (h', st) ->
  Inv n ver u p {| state := st; ppc := ppc s; handlers := <[i := h']> (handlers s) |}.
Proof.
  intros [Hn Hv Hu Hp Hpc Hr He Hpcn Hpe Hh Hsl Hd Hwt] Hi H.
  apply serve_step_Ok in H.
  pose proof (total_insert holds_rlock _ _ _ h' Hi) as Tr.
  pose proof (total_insert counted _ _ _ h' Hi) as Tc.
  destruct s as [st0 pc0 hs]; simpl in *.
  destruct h; simpl in *;
    [ destruct H as [-> ->]
    | destruct H as (-> & Hw & ->)
    | destruct H as [-> ->]
    | destruct H as (-> & k & Hk & ->)
    | destruct H as [-> ->]
    | contradiction ];
    simpl in Tr, Tc;
    (constructor; simpl in *; try assumption; try reflexivity;
     [ try (eapply pc_inv_frame; [| | |exact Hpc]; simpl; auto; fail);
       try lia;
       try discriminate;
       try (intros Hw'; specialize (He Hw'); lia);
       try (rewrite Hh, ?Int64Facts.add_wrap_succ; f_equal; lia);
       try (intros Hw'; exact (Hwt Hw')) .. ]).
Qed.

Lemma Inv_step n ver u p a s s' :
  Inv n ver u p s -> step a s = Ok s' -> Inv n ver u p s'.
Proof.
  intros HI H. apply step_Ok in H. destruct a as [| |i].
  - destruct H as (pc & st & Hs & ->). eapply Inv_poll_step; eauto.
  - subst s'. destruct HI. constructor; simpl; try assumption.
    + rewrite total_app. simpl. lia.
    + rewrite total_app. simpl. rewrite Nat.add_0_r. assumption.
  - destruct H as (h & h' & st & Hi & Hs & ->). eapply Inv_serve_step; eauto.
Qed.

(** Every state of the process satisfies the invariant. *)
Lemma Inv_reachable n ver u p s : reachable n ver u p s -> Inv n ver u p s.
Proof.
  intros [sched H]. revert sched s H. apply exec_ind_r.
  - apply Inv_start.
  - intros a s s' HI Hs. eapply Inv_step; eauto.
Qed.

(** ** Reads before the first success *)

(** C4. A fresh server has [yes] false, and as long as no probe has been
    answered with status 200 (or the one that was has not yet been followed
    by the store [s.yes = true]), [yes] is false and every read of it by
    [ServeHTTP] returns false, whatever the interleaving of the handlers. *)
Theorem pending_reads_false n ver u p (s : Sys) :
  reachable n ver u p s ->
  no_ok_yet n u (heads (state s)) \/ ppc s = PcLock \/ ppc s = PcStore ->
  yes (fst (NewServer ver u p)) = false /\
  yes (srv (state s)) = false /\
  Yes (read_data (state s)) = false /\
  (forall d st, ServeHTTP (state s) = Ok (d, st) -> Yes d = false) /\
  (forall h st, serve_step HRead (state s) = Ok (h, st) ->
     exists d, h = HRUnlock d /\ Yes d = false).
Proof.
  intros Hr Hpend. apply Inv_reachable in Hr. destruct Hr.
  assert (Hy : yes (srv (state s)) = false).
  { destruct Hpend as [Hno|[Hpc|Hpc]].
    - destruct (ppc s); simpl in inv_pc0;
        destruct inv_pc0 as (Hy & _ & Hf); try exact Hy;
        exfalso; eapply first_ok_not_no_ok; eauto.
    - rewrite Hpc in inv_pc0. apply inv_pc0.
    - rewrite Hpc in inv_pc0. apply inv_pc0. }
  split; [reflexivity|]. split; [exact Hy|]. split; [exact Hy|]. split.
  - intros d st H. apply ServeHTTP_Ok in H as (-> & _). exact Hy.
  - intros h st H. apply serve_step_Ok in H as [-> _]. eauto.
Qed.

Lemma pending_reads_false_witness :
  yes (srv (state (after [ActPoll; ActRequest; ActServe 0; ActPoll; ActServe 0]
                     (fresh (net_after 2))))) = false.
Proof.
  destruct (pending_reads_false (net_after 2) "10.0.0.7" "http://go/" (5 * Second)
              (after [ActPoll; ActRequest; ActServe 0; ActPoll; ActServe 0]
                 (fresh (net_after 2))))
    as (_ & H & _).
  - exists [ActPoll; ActRequest; ActServe 0; ActPoll; ActServe 0].
    vm_compute. reflexivity.
  - left. intros i Hi. vm_compute in Hi.
    destruct i as [|[|i]]; [discriminate | lia | lia].
  - exact H.
Defined.

(** ** Probes that always fail *)

Lemma poll_none (fuel : nat) (st : State) :
  (forall i, net st (url (srv st)) i <> HeadResp StatusOK) ->
  poll fuel st = None.
Proof.
  revert st. induction fuel as [|fuel IH]; intros st Hfail; simpl; [reflexivity|].
  rewrite isTagged_eq.
  pose proof (Hfail (heads st)) as H. apply probe_ok_false in H. rewrite H.
  apply IH. simpl. exact Hfail.
Qed.

Lemma transport_errors_all n u k :
  (forall i, exists msg, n u i = HeadErr msg) -> transport_errors n u k = k.
Proof.
  intros H. induction k as [|k IH]; simpl; [reflexivity|].
  destruct (H k) as [msg ->]. lia.
Qed.

Lemma transport_errors_none n u k :
  (forall i, exists code, n u i = HeadResp code) -> transport_errors n u k = O.
Proof.
  intros H. induction k as [|k IH]; simpl; [reflexivity|].
  destruct (H k) as [code ->]. lia.
Qed.

(** C5, as stated, fails: when every probe is answered with status 404,
    every probe fails, yet [pollErrorCount] is still 0 after two probes. *)
Lemma status_failures_not_counted :
  (forall i, net_status 404 "http://go/" i <> HeadResp StatusOK) /\
  heads (state (after [ActPoll; ActPoll; ActPoll] (fresh (net_status 404)))) = 2%nat /\
  yes (srv (state (after [ActPoll; ActPoll; ActPoll] (fresh (net_status 404))))) = false /\
  pollCount (vars (state (after [ActPoll; ActPoll; ActPoll] (fresh (net_status 404))))) = 2 /\
  pollErrorCount (vars (state (after [ActPoll; ActPoll; ActPoll] (fresh (net_status 404))))) = 0.
Proof.
  split; [intros i; discriminate|]. vm_compute. repeat split.
Qed.

(** C5, amended. If no probe is ever answered with status 200, [poll]
    never returns and [yes] is false in every state of the process: the
    polling goroutine is always at the probe or at the sleep and can always
    take its next step. [pollCount] counts the probes, [pollErrorCount]
    counts those that failed in transport (all of them, when every probe
    fails in transport; a probe that fails by its status is not counted),
    both modulo 2^64. A reader sees the URL, the version and [false], and
    nothing of the failures. *)
Theorem poll_all_fail n ver u p :
  (forall i, n u i <> HeadResp StatusOK) ->
  (forall fuel, poll fuel (state (start n ver u p)) = None) /\
  (forall s, reachable n ver u p s ->
     yes (srv (state s)) = false /\
     (ppc s = PcTest \/ ppc s = PcSleep) /\
     (exists s', step ActPoll s = Ok s') /\
     pollCount (vars (state s)) = Int64.wrap (Z.of_nat (heads (state s))) /\
     pollErrorCount (vars (state s))
       = Int64.wrap (Z.of_nat (transport_errors n u (heads (state s)))) /\
     ((forall i, exists msg, n u i = HeadErr msg) ->
        pollErrorCount (vars (state s)) = Int64.wrap (Z.of_nat (heads (state s)))) /\
     read_data (state s) = {| URL := u; Version := ver; Yes := false |}).
Proof.
  intros Hfail. split.
  - intros fuel. apply poll_none. simpl. exact Hfail.
  - intros s Hr. apply Inv_reachable in Hr. destruct Hr.
    assert (Hpc : ppc s = PcTest \/ ppc s = PcSleep).
    { destruct (ppc s); simpl in inv_pc0; auto;
        destruct inv_pc0 as (_ & _ & j & _ & Hj & _);
        exfalso; exact (Hfail j Hj). }
    assert (Hy : yes (srv (state s)) = false).
    { destruct Hpc as [Hpc|Hpc]; rewrite Hpc in inv_pc0; apply inv_pc0. }
    split; [exact Hy|]. split; [exact Hpc|]. split.
    { destruct s as [st pc hs]; simpl in *.
      destruct Hpc as [-> | ->]; simpl.
      - destruct (isTagged (url (srv st)) st) as [b st1]. simpl. eauto.
      - eauto. }
    split; [assumption|]. split; [assumption|]. split.
    { intros Hall. rewrite inv_pollErrorCount0.
      rewrite transport_errors_all by exact Hall. reflexivity. }
    unfold read_data. rewrite inv_url0, inv_version0, Hy. reflexivity.
Qed.

Lemma poll_all_fail_witness :
  poll 7 (state (fresh net_refused)) = None /\
  yes (srv (state (after [ActPoll; ActPoll; ActRequest; ActPoll; ActServe 0]
                     (fresh net_refused)))) = false.
Proof.
  destruct (poll_all_fail net_refused "10.0.0.7" "http://go/" (5 * Second))
    as [H1 H2].
  - intros i. discriminate.
  - split; [apply H1|].
    destruct (H2 (after [ActPoll; ActPoll; ActRequest; ActPoll; ActServe 0]
                    (fresh net_refused))) as [H _].
    + exists [ActPoll; ActPoll; ActRequest; ActPoll; ActServe 0].
      vm_compute. reflexivity.
    + exact H.
Defined.

(** ** The counters *)

Lemma grows_same c : grows c c.
Proof. split; [left; reflexivity | lia]. Qed.

Lemma grows_add c : Int64.in_range c -> grows c (Int64.add c 1).
Proof.
  intros Hc. split; [right; reflexivity|].
  intros Hlt. rewrite Int64Facts.add_no_overflow by assumption. lia.
Qed.

(** The variables after a step are those [counts] tells. *)
Lemma step_counts a s s' :
  step a s = Ok s' -> vars (state s') = counts a s (vars (state s)).
Proof.
  intros H. apply step_Ok in H. destruct a as [| |i]; simpl.
  - destruct H as (pc & st & Hp & ->). simpl.
    apply poll_step_Ok in Hp. destruct (ppc s).
    + destruct Hp as [_ ->]. rewrite isTagged_eq. reflexivity.
    + destruct Hp as [_ ->]. reflexivity.
    + destruct Hp as [(_ & _ & _ & ->)|(_ & _ & _ & _ & ->)]; reflexivity.
    + destruct Hp as [_ ->]. reflexivity.
    + destruct Hp as (_ & _ & ->). reflexivity.
    + destruct Hp as [_ ->]. reflexivity.
    + contradiction.
  - subst s'. reflexivity.
  - destruct H as (h & h' & st & Hi & Hs & ->). simpl. rewrite Hi.
    apply serve_step_Ok in Hs. destruct h.
    + destruct Hs as [_ ->]. reflexivity.
    + destruct Hs as (_ & _ & ->). reflexivity.
    + destruct Hs as [_ ->]. reflexivity.
    + destruct Hs as (_ & k & _ & ->). reflexivity.
    + destruct Hs as [_ ->]. reflexivity.
    + contradiction.
Qed.

Lemma four_hundred_four_probes_reach (k : nat) :
  exists s, exec (repeat ActPoll (2 * k)) (fresh (net_status 404)) = Ok s /\
            ppc s = PcTest /\ heads (state s) = k.
Proof.
  induction k as [|k (s & Hx & Hpc & Hh)].
  - exists (fresh (net_status 404)). repeat split.
  - replace (2 * S k)%nat with (2 * k + 2)%nat by lia.
    rewrite repeat_app, exec_app, Hx. simpl.
    assert (Hn : net (state s) = net_status 404).
    { apply (inv_net _ "10.0.0.7" "http://go/" (5 * Second)).
      apply Inv_reachable. eexists; exact Hx. }
    destruct s as [st pc hs]; simpl in *. subst pc.
    simpl. rewrite isTagged_eq, Hn. simpl.
    eexists; split; [reflexivity|]. simpl. auto.
Qed.

(** The polling goroutine can always run its probe. *)
Lemma probe_enabled (s : Sys) :
  ppc s = PcTest -> exists s', step ActPoll s = Ok s'.
Proof.
  destruct s as [st pc hs]. simpl. intros ->. simpl.
  destruct (isTagged (url (srv st)) st). simpl. eauto.
Qed.

(** On a network that always answers 404, the probe made when [pollCount]
    is the largest [int64] takes it to the smallest one. *)
Lemma pollCount_overflows (k : nat) :
  Z.of_nat k = Int64.max_signed ->
  exists s s',
    reachable (net_status 404) "10.0.0.7" "http://go/" (5 * Second) s /\
    step ActPoll s = Ok s' /\
    pollCount (vars (state s)) = Int64.max_signed /\
    pollCount (vars (state s')) = Int64.min_signed.
Proof.
  intros Hk.
  destruct (four_hundred_four_probes_reach k) as (s & Hx & Hpc & Hh).
  assert (Hr : reachable (net_status 404) "10.0.0.7" "http://go/" (5 * Second) s)
    by (eexists; exact Hx).
  pose proof (Inv_reachable _ _ _ _ _ Hr) as HI.
  assert (Hc : pollCount (vars (state s)) = Int64.max_signed).
  { rewrite (inv_pollCount _ _ _ _ _ HI), Hh, Hk. reflexivity. }
  destruct (probe_enabled s Hpc) as [s' Hs].
  exists s, s'. split; [exact Hr|]. split; [exact Hs|]. split; [exact Hc|].
  rewrite (step_counts _ _ _ Hs). unfold counts. rewrite Hpc.
  rewrite (inv_net _ _ _ _ _ HI). unfold net_status, probe_vars, pollCount_Add.
  cbn [pollCount]. rewrite Hc. reflexivity.
Qed.

(** C7, as stated, fails twice. A probe that fails by its status (404)
    leaves the error counter as it was; and a counter that has reached the
    largest [int64], as [pollCount] has after [2^63 - 1] probes, goes down
    to the smallest one with the next probe. *)
Lemma counters_not_always_increasing :
  (fst (isTagged "http://go/" (state (fresh (net_status 404)))) = false /\
   pollErrorCount (vars (snd (isTagged "http://go/" (state (fresh (net_status 404))))))
     = pollErrorCount (vars (state (fresh (net_status 404))))) /\
  (exists s s',
     reachable (net_status 404) "10.0.0.7" "http://go/" (5 * Second) s /\
     step ActPoll s = Ok s' /\
     pollCount (vars (state s)) = Int64.max_signed /\
     pollCount (vars (state s')) = Int64.min_signed /\
     pollCount (vars (state s')) < pollCount (vars (state s))).
Proof.
  split; [split; reflexivity|].
  assert (Hk : Z.of_nat (Z.to_nat Int64.max_signed) = Int64.max_signed).
  { apply Z2Nat.id. discriminate. }
  destruct (pollCount_overflows _ Hk) as (s & s' & Hr & Hs & Hc & Hc').
  clear Hk. exists s, s'.
  split; [exact Hr|]. split; [exact Hs|]. split; [exact Hc|]. split; [exact Hc'|].
  rewrite Hc, Hc'. reflexivity.
Qed.

(** C7, amended. Every step of the process changes the variables as
    [counts] tells: a probe adds one to [pollCount] and, when it fails in
    transport, one to [pollErrorCount]; a handler adds one to [hitCount];
    nothing else changes them and nothing resets them. The additions are
    [int64] additions, so each counter either stays or goes up by one and
    does not go down as long as it is below [2^63 - 1]. *)
Theorem counters_step n ver u p (a : Action) (s s' : Sys) :
  reachable n ver u p s ->
  step a s = Ok s' ->
  vars (state s') = counts a s (vars (state s)) /\
  (a = ActPoll -> ppc s = PcTest ->
     pollCount (vars (state s')) = Int64.add (pollCount (vars (state s))) 1 /\
     hitCount (vars (state s')) = hitCount (vars (state s)) /\
     pollErrorCount (vars (state s'))
       = match n u (heads (state s)) with
         | HeadErr _ => Int64.add (pollErrorCount (vars (state s))) 1
         | HeadResp _ => pollErrorCount (vars (state s))
         end) /\
  (forall i, a = ActServe i -> handlers s !! i = Some HHit ->
     hitCount (vars (state s')) = Int64.add (hitCount (vars (state s))) 1 /\
     pollCount (vars (state s')) = pollCount (vars (state s)) /\
     pollErrorCount (vars (state s')) = pollErrorCount (vars (state s))) /\
  grows (hitCount (vars (state s))) (hitCount (vars (state s'))) /\
  grows (pollCount (vars (state s))) (pollCount (vars (state s'))) /\
  grows (pollErrorCount (vars (state s))) (pollErrorCount (vars (state s'))).
Proof.
  intros Hr Hs. pose proof (step_counts _ _ _ Hs) as Hc.
  apply Inv_reachable in Hr. destruct Hr.
  assert (R1 : Int64.in_range (hitCount (vars (state s))))
    by (rewrite inv_hitCount0; apply Int64Facts.wrap_in_range).
  assert (R2 : Int64.in_range (pollCount (vars (state s))))
    by (rewrite inv_pollCount0; apply Int64Facts.wrap_in_range).
  assert (R3 : Int64.in_range (pollErrorCount (vars (state s))))
    by (rewrite inv_pollErrorCount0; apply Int64Facts.wrap_in_range).
  split; [exact Hc|]. rewrite Hc. clear Hc Hs. split; [|split].
  - intros -> Hpc. simpl. rewrite Hpc, inv_net0, inv_url0.
    destruct (n u (heads (state s))); simpl; auto.
  - intros i -> Hi. simpl. rewrite Hi. simpl. auto.
  - destruct a as [| |i]; simpl.
    + destruct (ppc s); auto using grows_same.
      destruct (net (state s) (url (srv (state s))) (heads (state s))); simpl;
        auto using grows_same, grows_add.
    + auto using grows_same.
    + destruct (handlers s !! i) as [[]|]; simpl;
        auto using grows_same, grows_add.
Qed.

Lemma counters_step_witness :
  vars (state (after [ActPoll] (fresh net_refused)))
    = {| hitCount := 0; pollCount := 1;
         pollError := "dial tcp: connection refused"; pollErrorCount := 1 |} /\
  grows 0 (pollCount (vars (state (after [ActPoll] (fresh net_refused))))).
Proof.
  destruct (counters_step net_refused "10.0.0.7" "http://go/" (5 * Second)
              ActPoll (fresh net_refused) (after [ActPoll] (fresh net_refused)))
    as (H1 & _ & _ & _ & H2 & _).
  - exists []. reflexivity.
  - vm_compute. reflexivity.
  - split; [rewrite H1; reflexivity | exact H2].
Defined.

(** ** [poll] when the probe fails a number of times and then succeeds *)

Lemma set_yes_free (s : Server) :
  mu s = {| writer := false; waiting := false; readers := O |} ->
  set_mu {| writer := false; waiting := false; readers := O |}
         (set_yes true (set_mu {| writer := true; waiting := false; readers := O |} s))
    = set_yes true s.
Proof. destruct s as [ver u p m y]. simpl. intros ->. reflexivity. Qed.

(** [poll] from any state with the lock free, when the next [k] probes
    fail and the one after them succeeds. *)
Lemma poll_rounds (k : nat) :
  forall (st : State) (fuel : nat),
  (forall i, (i < k)%nat ->
     net st (url (srv st)) (heads st + i) <> HeadResp StatusOK) ->
  net st (url (srv st)) (heads st + k) = HeadResp StatusOK ->
  mu (srv st) = {| writer := false; waiting := false; readers := O |} ->
  (k < fuel)%nat ->
  poll fuel st =
    Some (Ok {| srv := set_yes true (srv st);
                vars := probes_vars (net st) (url (srv st)) (heads st) (S k) (vars st);
                net := net st;
                heads := heads st + S k;
                trace := trace st
                         ++ failed_rounds (net st) (url (srv st)) (period (srv st))
                              (heads st) k
                         ++ confirm_events (url (srv st)) |}).
Proof.
  induction k as [|k IH]; intros st fuel Hfail Hok Hmu Hfuel;
    (destruct fuel as [|fuel]; [lia|]); simpl; rewrite isTagged_eq.
  - rewrite Nat.add_0_r in Hok. rewrite Hok. simpl.
    unfold Lock. simpl. rewrite Hmu. simpl.
    unfold pollDone, emit, store_yes, with_srv. simpl.
    rewrite set_yes_free by exact Hmu.
    rewrite <- !app_assoc. simpl. rewrite Nat.add_1_r. reflexivity.
  - pose proof (Hfail O ltac:(lia)) as H0. rewrite Nat.add_0_r in H0.
    apply probe_ok_false in H0. rewrite H0.
    rewrite (IH _ fuel); simpl.
    + do 2 f_equal. unfold pollSleep, emit. simpl. f_equal; [lia|].
      rewrite <- !app_assoc. reflexivity.
    + intros i Hi. replace (S (heads st + i)) with (heads st + S i)%nat by lia.
      apply Hfail. lia.
    + replace (S (heads st + k)) with (heads st + S k)%nat by lia. exact Hok.
    + exact Hmu.
    + lia.
Qed.

(** With too few probes allowed, [poll] is still in its loop. *)
Lemma poll_short (fuel : nat) :
  forall (st : State) (k : nat),
  (forall i, (i < k)%nat ->
     net st (url (srv st)) (heads st + i) <> HeadResp StatusOK) ->
  (fuel <= k)%nat ->
  poll fuel st = None.
Proof.
  induction fuel as [|fuel IH]; intros st k Hfail Hle; simpl; [reflexivity|].
  rewrite isTagged_eq.
  pose proof (Hfail O ltac:(lia)) as H0. rewrite Nat.add_0_r in H0.
  apply probe_ok_false in H0. rewrite H0.
  apply (IH _ (pred k)); simpl; [|lia].
  intros i Hi. replace (S (heads st + i)) with (heads st + S i)%nat by lia.
  apply Hfail. lia.
Qed.

(** What [poll] returns is what the polling goroutine reaches, statement
    by statement, when it is not kept waiting for the lock. *)
Lemma poll_exec (fuel : nat) :
  forall (st st' : State) (hs : list ServePC),
  poll fuel st = Some (Ok st') ->
  exists k, exec (repeat ActPoll k) {| state := st; ppc := PcTest; handlers := hs |}
            = Ok {| state := st'; ppc := PcExit; handlers := hs |}.
Proof.
  induction fuel as [|fuel IH]; intros st st' hs; simpl; [discriminate|].
  destruct (isTagged (url (srv st)) st) as [tagged st1] eqn:E.
  destruct tagged.
  - intros [= H]. apply bind_Ok in H as (st2 & H2 & H).
    apply bind_Ok in H as (st3 & H3 & [= <-]).
    assert (Hz : readers (mu (srv st1)) = O).
    { pose proof H2 as H2'. unfold Lock in H2'.
      apply bind_Ok in H2' as (m & Hm & _). apply mu_Lock_Ok in Hm. tauto. }
    exists 5%nat. simpl. rewrite E. simpl. rewrite Hz, H2. simpl. rewrite H3.
    reflexivity.
  - intros H. apply (IH _ _ hs) in H as [k Hk].
    exists (S (S k)). simpl. rewrite E. simpl. exact Hk.
Qed.

Lemma calls_app tr1 tr2 : calls (tr1 ++ tr2) = calls tr1 ++ calls tr2.
Proof. apply List.filter_app. Qed.

Lemma calls_failed_rounds n u p j k :
  calls (failed_rounds n u p j k) = probe_sleep u p k.
Proof.
  revert j. induction k as [|k IH]; intros j; simpl; [reflexivity|].
  unfold calls in *. destruct (n u j); simpl; rewrite IH; reflexivity.
Qed.

Lemma count_done_failed_rounds n u p j k :
  count_occ Event_eq_dec (failed_rounds n u p j k) EvDone = O.
Proof.
  revert j. induction k as [|k IH]; intros j; simpl; [reflexivity|].
  destruct (n u j); simpl; apply IH.
Qed.

(** C2. When the first [N] probes fail and the next one is answered with
    status 200, [poll] returns after exactly [N + 1] probes (and not with
    fewer), with a sleep of the configured period after each failed probe,
    so between any two probes; it has then set [yes] and, after that,
    called the completion hook exactly once. *)
Theorem poll_fails_then_succeeds n ver u p (N : nat) :
  (forall i, (i < N)%nat -> n u i <> HeadResp StatusOK) ->
  n u N = HeadResp StatusOK ->
  exists st',
    (forall fuel, (N < fuel)%nat ->
       poll fuel (state (start n ver u p)) = Some (Ok st')) /\
    (forall fuel, (fuel <= N)%nat -> poll fuel (state (start n ver u p)) = None) /\
    (exists k, exec (repeat ActPoll k) (start n ver u p)
               = Ok {| state := st'; ppc := PcExit; handlers := [] |}) /\
    yes (srv st') = true /\
    heads st' = S N /\
    trace st' = failed_rounds n u p 0 N ++ confirm_events u /\
    calls (trace st') = probe_sleep u p N ++ [EvHead u; EvDone] /\
    count_occ Event_eq_dec (trace st') EvDone = 1%nat.
Proof.
  intros Hfail Hok.
  pose proof (fun fuel => poll_rounds N (state (start n ver u p)) fuel Hfail Hok eq_refl)
    as Hrun.
  simpl in Hrun.
  eexists. split; [exact Hrun|]. split.
  - intros fuel Hle. apply (poll_short fuel _ N); [exact Hfail | exact Hle].
  - split.
    + apply (poll_exec (S N)). apply Hrun. lia.
    + simpl. split; [reflexivity|]. split; [reflexivity|]. split; [reflexivity|].
      split.
      * rewrite calls_app, calls_failed_rounds. reflexivity.
      * rewrite count_occ_app, count_done_failed_rounds. reflexivity.
Qed.

Lemma poll_fails_then_succeeds_witness :
  exists st',
    poll 3 (state (fresh (net_after 2))) = Some (Ok st') /\
    poll 2 (state (fresh (net_after 2))) = None /\
    yes (srv st') = true /\
    heads st' = 3%nat /\
    calls (trace st')
      = [EvHead "http://go/"; EvSleep (5 * Second);
         EvHead "http://go/"; EvSleep (5 * Second);
         EvHead "http://go/"; EvDone].
Proof.
  destruct (poll_fails_then_succeeds (net_after 2) "10.0.0.7" "http://go/"
              (5 * Second) 2)
    as (st' & H1 & H2 & _ & H3 & H4 & _ & H5 & _).
  - intros i Hi. destruct i as [|[|i]]; [discriminate | discriminate | lia].
  - reflexivity.
  - exists st'. split; [apply H1; lia|]. split; [apply H2; lia|].
    split; [exact H3|]. split; [exact H4|]. exact H5.
Defined.

(** ** [main] and the [iphost] flag *)

Lemma flags_init_eq :
  flags_init =
    Ok ({| httpAddr := 0; pollPeriod := 1; version_flag := 2; iphost := 3 |}, flags0).
Proof. reflexivity. Qed.

Lemma flags0_lookup (name : string) :
  formal flags0 !! name =
    if decide (name = "iphost") then Some 3%nat
    else if decide (name = "version") then Some 2%nat
    else if decide (name = "poll") then Some 1%nat
    else if decide (name = "http") then Some 0%nat
    else None.
Proof.
  unfold flags0. simpl. rewrite !lookup_insert, lookup_empty.
  repeat case_decide; congruence.
Qed.

(** One [-name=value] changes the cell of the flag [name] and no other. *)
Lemma flag_Set_flags0 L name value fs fs' a d v i :
  formal fs = formal flags0 ->
  cells fs = [VString a; VDuration d; VString v; VString i] ->
  flag_Set L name value fs = Ok fs' ->
  formal fs' = formal flags0 /\
  cells fs' =
    [VString (if decide (name = "http") then value else a);
     VDuration (if decide (name = "poll") then default d (ParseDuration L value) else d);
     VString (if decide (name = "version") then value else v);
     VString (if decide (name = "iphost") then value else i)].
Proof.
  intros Hf Hc. unfold flag_Set. rewrite Hf, flags0_lookup, Hc.
  repeat case_decide; subst; try discriminate; simpl.
  - intros [= <-]. auto.
  - intros [= <-]. auto.
  - destruct (ParseDuration L value); [|discriminate]. intros [= <-]. auto.
  - intros [= <-]. auto.
Qed.

(** [flag.Parse] leaves in each cell the last value given to its flag. *)
Lemma flag_Parse_flags0 L args :
  forall fs fs' a d v i,
  formal fs = formal flags0 ->
  cells fs = [VString a; VDuration d; VString v; VString i] ->
  flag_Parse L args fs = Ok fs' ->
  formal fs' = formal flags0 /\
  cells fs' =
    [VString (cli_value "http" args a);
     VDuration (cli_duration L "poll" args d);
     VString (cli_value "version" args v);
     VString (cli_value "iphost" args i)].
Proof.
  induction args as [|[name value] args IH]; intros fs fs' a d v i Hf Hc; simpl.
  - intros [= <-]. auto.
  - intros H. apply bind_Ok in H as (fs1 & H1 & H2).
    destruct (flag_Set_flags0 _ _ _ _ _ _ _ _ _ Hf Hc H1) as [Hf1 Hc1].
    apply (IH _ _ _ _ _ _ Hf1 Hc1 H2).
Qed.

Lemma last_cons_default {A : Type} (x : A) (l : list A) (d : A) :
  List.last (x :: l) d = List.last l x.
Proof.
  revert x d. induction l as [|y l IH]; intros x d; [reflexivity|].
  change (List.last (x :: y :: l) d) with (List.last (y :: l) d).
  rewrite (IH y d), (IH y x). reflexivity.
Qed.

Lemma last_app_default {A : Type} (l1 l2 : list A) (d : A) :
  List.last (l1 ++ l2) d = List.last l2 (List.last l1 d).
Proof.
  revert d. induction l1 as [|x l1 IH]; intros d; [reflexivity|].
  rewrite <- app_comm_cons, !last_cons_default. apply IH.
Qed.

(** The inner loop keeps the last address it meets. *)
Lemma scan_addrs_last (addrs : list Addr) (ipcheck : IP) :
  scan_addrs addrs ipcheck = List.last (flat_map addr_ips addrs) ipcheck.
Proof.
  revert ipcheck. induction addrs as [|a addrs IH]; intros ipcheck; [reflexivity|].
  destruct a; cbn [scan_addrs flat_map addr_ips app]; rewrite IH;
    rewrite ?last_cons_default; reflexivity.
Qed.

(** The errors of the enumeration, in the order they are logged. *)
Lemma scan_ifaces_last (ifaces : list Interface) (ipcheck : IP) (log : list string) :
  scan_ifaces ifaces ipcheck log =
    (List.last (found_ips ifaces) ipcheck,
     log ++ omap snd ifaces).
Proof.
  revert ipcheck log. induction ifaces as [|[addrs err] ifaces IH];
    intros ipcheck log; simpl.
  - rewrite app_nil_r. reflexivity.
  - rewrite IH, scan_addrs_last. unfold found_ips. simpl.
    rewrite last_app_default. f_equal.
    destruct err; simpl; [rewrite <- app_assoc|]; reflexivity.
Qed.

(** [main] goes as far as [http.ListenAndServe] exactly when the command
    line parses, and then with the result [main_result]. *)
Lemma main_eq L args interfaces :
  main L args interfaces =
    match flag_Parse L args flags0 with
    | Ok _ => Ok (main_result L args interfaces)
    | NotEnabled => NotEnabled
    | Fatal m => Fatal m
    end.
Proof.
  unfold main. rewrite flags_init_eq. cbn [mbind result_bind].
  destruct (flag_Parse L args flags0) as [fs| |m] eqn:HP; cbn [mbind result_bind];
    try reflexivity.
  destruct (flag_Parse_flags0 _ _ _ _ _ _ _ _ eq_refl eq_refl HP) as [Hf Hc].
  destruct interfaces as [ifaces err]. rewrite scan_ifaces_last.
  unfold flag_String, flag_Var. rewrite Hf, flags0_lookup. simpl.
  rewrite Hc. reflexivity.
Qed.

(** C9. Whatever the command line says, the value of [-iphost] does not
    reach the server: the flag registered after [flag.Parse] gets a cell of
    its own, holding the text of the last address found by the enumeration
    of the interfaces, and [main] reads that cell for the version and the
    change URL; the cell of the flag [iphost] still holds what the command
    line gave, and nothing reads it. *)
Theorem main_discards_iphost (L : Lib) (args : list (string * string))
    (interfaces : list Interface * option string) (out : Served) :
  main L args interfaces = Ok out ->
  version (fst (served out)) = IP_String L (last_ip (fst interfaces)) /\
  url (fst (served out))
    = baseChangeURL +:+ "go" +:+ IP_String L (last_ip (fst interfaces)) /\
  formal (flag_set out) !! "iphost" = Some 3%nat /\
  deref_string 3 (flag_set out) = cli_value "iphost" args "127.0.0.1" /\
  iphost (flag_vars out) = 4%nat /\
  formal (flag_set out) !! "Ip Host" = Some 4%nat /\
  deref_string (iphost (flag_vars out)) (flag_set out)
    = IP_String L (last_ip (fst interfaces)) /\
  (forall args' out', main L args' interfaces = Ok out' ->
     version (fst (served out')) = version (fst (served out)) /\
     url (fst (served out')) = url (fst (served out))).
Proof.
  rewrite main_eq. destruct (flag_Parse L args flags0); [|discriminate..].
  intros [= <-]. do 7 (split; [reflexivity|]).
  intros args' out'. rewrite main_eq.
  destruct (flag_Parse L args' flags0); [|discriminate..]. intros [= <-].
  split; reflexivity.
Qed.

Lemma main_discards_iphost_witness :
  version (fst (served (main_result lib_example
     [("iphost", "192.168.1.1"); ("poll", "2s")]
     ([([IPNet [127; 0; 0; 1] [255; 0; 0; 0]], None);
       ([OtherAddr "x"; IPNet [10; 0; 0; 7] [255; 255; 255; 0]; OtherAddr "y"], None)],
      None)))) = "10.0.0.7" /\
  deref_string 3 (flag_set (main_result lib_example
     [("iphost", "192.168.1.1"); ("poll", "2s")]
     ([([IPNet [127; 0; 0; 1] [255; 0; 0; 0]], None);
       ([OtherAddr "x"; IPNet [10; 0; 0; 7] [255; 255; 255; 0]; OtherAddr "y"], None)],
      None))) = "192.168.1.1".
Proof.
  destruct (main_discards_iphost lib_example
     [("iphost", "192.168.1.1"); ("poll", "2s")]
     ([([IPNet [127; 0; 0; 1] [255; 0; 0; 0]], None);
       ([OtherAddr "x"; IPNet [10; 0; 0; 7] [255; 255; 255; 0]; OtherAddr "y"], None)],
      None)
     (main_result lib_example
     [("iphost", "192.168.1.1"); ("poll", "2s")]
     ([([IPNet [127; 0; 0; 1] [255; 0; 0; 0]], None);
       ([OtherAddr "x"; IPNet [10; 0; 0; 7] [255; 255; 255; 0]; OtherAddr "y"], None)],
      None)))
    as (H1 & _ & _ & H2 & _).
  - vm_compute. reflexivity.
  - split; [rewrite H1; reflexivity | rewrite H2; reflexivity].
Defined.

(** ** The events of the polling goroutine *)

Lemma failed_rounds_snoc n u p j k :
  failed_rounds n u p j (S k)
    = failed_rounds n u p j k ++ probe_events u (n u (j + k)%nat) ++ [EvSleep p].
Proof.
  revert j. induction k as [|k IH]; intros j.
  - simpl. rewrite Nat.add_0_r, ?app_nil_r. reflexivity.
  - change (failed_rounds n u p j (S (S k)))
      with (probe_events u (n u j) ++ EvSleep p :: failed_rounds n u p (S j) (S k)).
    rewrite IH. simpl. replace (S (j + k)) with (j + S k)%nat by lia.
    rewrite <- !app_assoc. reflexivity.
Qed.

Lemma serve_step_trace h st h' st' :
  serve_step h st = Ok (h', st') -> trace st' = trace st /\ heads st' = heads st.
Proof.
  intros H. apply serve_step_Ok in H. destruct h.
  - destruct H as [_ ->]. auto.
  - destruct H as (_ & _ & ->). auto.
  - destruct H as [_ ->]. auto.
  - destruct H as (_ & k & _ & ->). auto.
  - destruct H as [_ ->]. auto.
  - contradiction.
Qed.

(** In every state of the process the events of the polling goroutine are
    those [poll_trace] tells, whatever the handlers have done. *)
Lemma poll_trace_reachable n ver u p (s : Sys) :
  reachable n ver u p s ->
  trace (state s) = poll_trace n u p (heads (state s)) (ppc s) /\
  (ppc s <> PcTest -> (1 <= heads (state s))%nat).
Proof.
  intros [sched Hx].
  cut (Inv n ver u p s /\
       trace (state s) = poll_trace n u p (heads (state s)) (ppc s) /\
       (ppc s <> PcTest -> (1 <= heads (state s))%nat));
    [intros (_ & H); exact H|].
  revert sched s Hx. apply exec_ind_r.
  - split; [apply Inv_start|]. split; [reflexivity|]. intros H. contradiction.
  - intros a s0 s' (HI & Ht & Hh) Hs. split; [eapply Inv_step; eauto|].
    apply step_Ok in Hs. destruct a as [| |i].
    + destruct Hs as (pc & st & Hp & ->). simpl.
      apply poll_step_Ok in Hp.
      pose proof (inv_net _ _ _ _ _ HI) as En.
      pose proof (inv_url _ _ _ _ _ HI) as Eu.
      pose proof (inv_period _ _ _ _ _ HI) as Ep.
      destruct (ppc s0) eqn:Hpc.
      * destruct Hp as [-> ->]. rewrite isTagged_eq. simpl.
        rewrite Ht, En, Eu.
        destruct (probe_ok (n u (heads (state s0)))) eqn:Eok; simpl.
        -- apply probe_ok_true in Eok. rewrite Eok. simpl.
           split; [reflexivity | lia].
        -- split; [reflexivity | lia].
      * destruct Hp as [-> ->]. simpl. rewrite Ht, Ep.
        specialize (Hh ltac:(discriminate)).
        destruct (heads (state s0)) as [|k] eqn:Ek; [lia|]. simpl pred.
        rewrite failed_rounds_snoc. unfold poll_trace. simpl pred.
        rewrite <- app_assoc. split; [reflexivity|].
        intros H. contradiction.
      * destruct Hp as [(-> & _ & _ & ->)|(-> & _ & _ & _ & ->)]; simpl;
          rewrite Ht; simpl.
        -- rewrite <- app_assoc. split; [reflexivity|]. intros _. apply Hh. discriminate.
        -- split; [reflexivity|]. intros _. apply Hh. discriminate.
      * destruct Hp as [-> ->]. simpl. rewrite Ht. simpl.
        rewrite <- app_assoc. split; [reflexivity|]. intros _. apply Hh. discriminate.
      * destruct Hp as (-> & _ & ->). simpl. rewrite Ht. simpl.
        rewrite <- app_assoc. split; [reflexivity|]. intros _. apply Hh. discriminate.
      * destruct Hp as [-> ->]. simpl. rewrite Ht. simpl.
        rewrite <- app_assoc. split; [reflexivity|]. intros _. apply Hh. discriminate.
      * contradiction.
    + subst s'. simpl. auto.
    + destruct Hs as (h & h' & st & _ & Hstep & ->). simpl.
      destruct (serve_step_trace _ _ _ _ Hstep) as [-> ->]. auto.
Qed.

(** Among the events of the polling goroutine, the calls of the probe and
    of the hooks: a probe and a sleep of the period for each failed probe,
    then what there is of the last round. *)
Lemma calls_poll_trace n u p k pc :
  calls (poll_trace n u p k pc)
    = probe_sleep u p (if decide (pc = PcTest) then k else pred k)
      ++ match pc with
         | PcTest => []
         | PcExit => [EvHead u; EvDone]
         | _ => [EvHead u]
         end.
Proof.
  unfold poll_trace, confirm_events.
  destruct pc; simpl; rewrite ?calls_app, ?calls_failed_rounds; try reflexivity.
  - rewrite app_nil_r. reflexivity.
  - destruct (n u (pred k)); reflexivity.
Qed.

(** ** The sleep between two probes *)

(** C8, as stated, fails: with a period of zero (or a negative one) the
    loop calls the sleep hook with that very period, and the default hook
    then does not pause. *)
Lemma zero_period_not_clamped :
  trace (state (after [ActPoll; ActPoll] (start (net_after 1) "10.0.0.7" "http://go/" 0)))
    = [EvHead "http://go/"; EvLog "dial tcp: i/o timeout"; EvSleep 0] /\
  time_Sleep_pause 0 = 0 /\
  trace (state (after [ActPoll; ActPoll] (start (net_after 1) "10.0.0.7" "http://go/" (-1))))
    = [EvHead "http://go/"; EvLog "dial tcp: i/o timeout"; EvSleep (-1)] /\
  time_Sleep_pause (-1) = 0.
Proof. repeat split. Qed.

(** C8, amended. Between two probes the loop calls the sleep hook, once,
    with exactly the configured period, also when the period is zero or
    negative: a failed probe takes the polling goroutine to the sleep, the
    sleep calls the hook with the period and takes it back to the probe, so
    that the calls it has made are a probe and a sleep of the period for
    each failed probe; the period is not clamped, and for a period that is
    zero or negative the default hook [time.Sleep] returns at once. *)
Theorem sleep_is_period n ver u p (s : Sys) :
  reachable n ver u p s ->
  (forall d, In (EvSleep d) (trace (state s)) -> d = p) /\
  (ppc s = PcSleep ->
     exists s', step ActPoll s = Ok s' /\ ppc s' = PcTest /\
                trace (state s') = trace (state s) ++ [EvSleep p]) /\
  (p <= 0 -> time_Sleep_pause p = 0) /\
  (ppc s = PcTest ->
   n u (heads (state s)) <> HeadResp StatusOK ->
     exists s1 s2,
       step ActPoll s = Ok s1 /\ ppc s1 = PcSleep /\
       heads (state s1) = S (heads (state s)) /\
       step ActPoll s1 = Ok s2 /\ ppc s2 = PcTest /\
       heads (state s2) = S (heads (state s)) /\
       trace (state s2) = trace (state s1) ++ [EvSleep p]) /\
  calls (trace (state s))
    = probe_sleep u p (if decide (ppc s = PcTest) then heads (state s)
                       else pred (heads (state s)))
      ++ match ppc s with
         | PcTest => []
         | PcExit => [EvHead u; EvDone]
         | _ => [EvHead u]
         end.
Proof.
  intros Hr. destruct (poll_trace_reachable _ _ _ _ _ Hr) as [Ht _].
  apply Inv_reachable in Hr. destruct Hr. split; [exact inv_sleep0|].
  split; [|split; [|split]].
  - intros Hpc. destruct s as [st pc hs]; simpl in *. subst pc. simpl.
    eexists; split; [reflexivity|]. simpl. rewrite inv_period0. auto.
  - intros Hp. unfold time_Sleep_pause. lia.
  - intros Hpc Hfail. destruct s as [st pc hs]; simpl in *. subst pc.
    rewrite <- inv_net0, <- inv_url0 in Hfail. apply probe_ok_false in Hfail.
    exists {| state := snd (isTagged (url (srv st)) st); ppc := PcSleep;
              handlers := hs |},
           {| state := pollSleep (period (srv st)) (snd (isTagged (url (srv st)) st));
              ppc := PcTest; handlers := hs |}.
    simpl. rewrite isTagged_srv, isTagged_heads, inv_period0.
    rewrite isTagged_eq. simpl. rewrite Hfail. repeat split.
  - rewrite Ht. apply calls_poll_trace.
Qed.

Lemma sleep_is_period_witness :
  In (EvSleep 0)
     (trace (state (after [ActPoll; ActPoll]
                      (start (net_after 1) "10.0.0.7" "http://go/" 0)))) /\
  time_Sleep_pause 0 = 0 /\
  calls (trace (state (after [ActPoll; ActPoll]
                         (start (net_after 1) "10.0.0.7" "http://go/" 0))))
    = [EvHead "http://go/"; EvSleep 0].
Proof.
  destruct (sleep_is_period (net_after 1) "10.0.0.7" "http://go/" 0
              (after [ActPoll; ActPoll] (start (net_after 1) "10.0.0.7" "http://go/" 0)))
    as (_ & _ & H & _ & Hc).
  - exists [ActPoll; ActPoll]. vm_compute. reflexivity.
  - split; [vm_compute; auto|]. split; [apply H; lia|]. rewrite Hc. reflexivity.
Defined.

(** * Further properties of the process *)

Lemma total_le f (hs : list ServePC) i h :
  hs !! i = Some h -> (f h <= total f hs)%nat.
Proof.
  revert i. induction hs as [|x hs IH]; intros [|i]; simpl; try discriminate.
  - intros [= ->]. lia.
  - intros H. specialize (IH i H). lia.
Qed.

Lemma total_pos f (hs : list ServePC) :
  (0 < total f hs)%nat -> exists i h, hs !! i = Some h /\ (0 < f h)%nat.
Proof.
  induction hs as [|x hs IH]; simpl; [lia|]. intros H.
  destruct (f x) as [|k] eqn:E.
  - destruct (IH ltac:(lia)) as (i & h & Hi & Hh). exists (S i), h. auto.
  - exists O, x. simpl. split; [reflexivity | lia].
Qed.

Lemma pc_inv_stored n u pc st :
  pc_inv n u pc st -> yes (srv st) = stored pc.
Proof. destruct pc; simpl; intros (Hy & _); exact Hy. Qed.

Lemma pc_inv_holds_lock n u pc st :
  pc_inv n u pc st -> writer (mu (srv st)) = holds_lock pc.
Proof. destruct pc; simpl; intros (_ & Hw & _); exact Hw. Qed.

(** The store of [yes] never overlaps a read: while the polling goroutine
    holds the lock for writing no handler holds it for reading, and while a
    handler holds it for reading the polling goroutine is outside its
    critical section. *)
Theorem write_excludes_reads n ver u p (s : Sys) :
  reachable n ver u p s ->
  (holds_lock (ppc s) = true ->
     writer (mu (srv (state s))) = true /\ readers (mu (srv (state s))) = O /\
     forall i h, handlers s !! i = Some h -> holds_rlock h = O) /\
  (forall i h, handlers s !! i = Some h -> holds_rlock h = 1%nat ->
     holds_lock (ppc s) = false /\ writer (mu (srv (state s))) = false /\
     (1 <= readers (mu (srv (state s))))%nat).
Proof.
  intros Hr. apply Inv_reachable in Hr. destruct Hr.
  pose proof (pc_inv_holds_lock _ _ _ _ inv_pc0) as Hw.
  split.
  - intros Hl. rewrite Hl in Hw. specialize (inv_excl0 Hw).
    split; [exact Hw|]. split; [exact inv_excl0|].
    intros i h Hi. pose proof (total_le holds_rlock _ _ _ Hi). lia.
  - intros i h Hi Hh. pose proof (total_le holds_rlock _ _ _ Hi) as Hle.
    assert (Hw' : writer (mu (srv (state s))) = false).
    { destruct (writer (mu (srv (state s)))); [|reflexivity].
      specialize (inv_excl0 eq_refl). lia. }
    rewrite Hw' in Hw. split; [symmetry; exact Hw|]. split; [exact Hw'|]. lia.
Qed.

Lemma write_excludes_reads_witness :
  ppc (after [ActRequest; ActServe 0; ActPoll; ActPoll; ActRequest]
         (fresh (net_status 200))) = PcStore /\
  readers (mu (srv (state (after [ActRequest; ActServe 0; ActPoll; ActPoll; ActRequest]
                             (fresh (net_status 200)))))) = O.
Proof.
  destruct (write_excludes_reads (net_status 200) "10.0.0.7" "http://go/" (5 * Second)
              (after [ActRequest; ActServe 0; ActPoll; ActPoll; ActRequest]
                 (fresh (net_status 200)))) as [H _].
  - exists [ActRequest; ActServe 0; ActPoll; ActPoll; ActRequest].
    vm_compute. reflexivity.
  - split; [reflexivity|]. destruct (H eq_refl) as (_ & H2 & _). exact H2.
Defined.

(** A step from a state of the process never stops the process: [Unlock]
    and [RUnlock] are only called by a goroutine that holds the lock. *)
Lemma Inv_step_not_fatal n ver u p a s m :
  Inv n ver u p s -> step a s <> Fatal m.
Proof.
  intros HI. destruct HI.
  destruct s as [st pc hs]; simpl in *. destruct a as [| |i]; simpl.
  - destruct pc; simpl in *; try discriminate.
    + destruct (isTagged (url (srv st)) st). discriminate.
    + unfold Lock, Lock_begin, mu_Lock, mu_Lock_begin.
      destruct (readers (mu (srv st))); destruct (writer (mu (srv st)));
        try discriminate.
      destruct (waiting (mu (srv st))); discriminate.
    + unfold Unlock, mu_Unlock. destruct inv_pc0 as (_ & -> & _). discriminate.
  - discriminate.
  - destruct (hs !! i) as [h|] eqn:Hi; [|discriminate].
    pose proof (total_le holds_rlock _ _ _ Hi) as Hle.
    destruct h; simpl in *; try discriminate.
    + unfold RLock, mu_RLock. destruct (writer (mu (srv st))); [discriminate|].
      destruct (waiting (mu (srv st))); discriminate.
    + unfold RUnlock, mu_RUnlock. destruct (readers (mu (srv st))); [lia|discriminate].
Qed.

(** No execution of the process ends in a fatal error of the runtime,
    whatever the network answers and however the goroutines interleave. *)
Theorem never_fatal n ver u p (sched : list Action) (m : string) :
  exec sched (start n ver u p) <> Fatal m.
Proof.
  pose proof (Inv_start n ver u p) as HI. revert HI.
  generalize (start n ver u p). induction sched as [|a sched IH]; intros s HI; simpl.
  - discriminate.
  - destruct (step a s) as [s1| |m1] eqn:E; simpl.
    + apply IH. eapply Inv_step; eauto.
    + discriminate.
    + exfalso. eapply Inv_step_not_fatal; eauto.
Qed.

(** A handler that holds the lock for reading can always take its step. *)
Lemma reader_inside_steps n ver u p (s : Sys) (i : nat) (h : ServePC) :
  Inv n ver u p s ->
  handlers s !! i = Some h -> holds_rlock h = 1%nat ->
  exists s', step (ActServe i) s = Ok s'.
Proof.
  intros HI Hi Hh. pose proof (total_le holds_rlock _ _ _ Hi) as Hle.
  pose proof (inv_readers _ _ _ _ _ HI) as Hr.
  destruct s as [st pc hs]; simpl in *. rewrite Hi.
  destruct h; simpl in Hh, Hle; try discriminate; simpl.
  - eauto.
  - unfold RUnlock, mu_RUnlock.
    destruct (readers (mu (srv st))); [lia|]. simpl. eauto.
Qed.

(** The process is never stuck on the lock. A goroutine that cannot take
    its step has returned or waits for the lock: the polling goroutine
    inside [Lock], for the readers inside, one of which can then take its
    step; a handler at [RLock], because the polling goroutine holds the
    lock, and can take its step, or because it waits inside [Lock], and
    then it can take its step or a reader inside can. *)
Theorem waits_for_a_running_goroutine n ver u p (s : Sys) :
  reachable n ver u p s ->
  (step ActPoll s = NotEnabled ->
     ppc s = PcExit \/
     (ppc s = PcLock /\ waiting (mu (srv (state s))) = true /\
      exists i h s', handlers s !! i = Some h /\ holds_rlock h = 1%nat /\
                     step (ActServe i) s = Ok s')) /\
  (forall i h, handlers s !! i = Some h -> step (ActServe i) s = NotEnabled ->
     (exists d, h = HReturned d) \/
     (h = HRLock /\
      ((holds_lock (ppc s) = true /\ exists s', step ActPoll s = Ok s') \/
       (ppc s = PcLock /\ waiting (mu (srv (state s))) = true /\
        ((exists s', step ActPoll s = Ok s') \/
         (exists j h' s', handlers s !! j = Some h' /\ holds_rlock h' = 1%nat /\
                          step (ActServe j) s = Ok s')))))).
Proof.
  intros Hr. apply Inv_reachable in Hr. pose proof Hr as HI. destruct Hr.
  assert (Hwait : ppc s = PcLock ->
            (exists s', step ActPoll s = Ok s') \/
            (waiting (mu (srv (state s))) = true /\
             step ActPoll s = NotEnabled /\
             exists j h' s', handlers s !! j = Some h' /\ holds_rlock h' = 1%nat /\
                             step (ActServe j) s = Ok s')).
  { intros Hpc. rewrite Hpc in inv_pc0. destruct inv_pc0 as (_ & Hw & _).
    destruct (readers (mu (srv (state s)))) as [|k] eqn:Hk.
    - left. destruct s as [st pc hs]; simpl in *. subst pc. simpl.
      rewrite Hk. unfold Lock, mu_Lock. rewrite Hw, Hk. simpl. eauto.
    - destruct (waiting (mu (srv (state s)))) eqn:Hwt.
      + right. split; [reflexivity|]. split.
        * destruct s as [st pc hs]; simpl in *. subst pc. simpl.
          rewrite Hk. unfold Lock_begin, mu_Lock_begin. rewrite Hw, Hwt. reflexivity.
        * destruct (total_pos holds_rlock (handlers s) ltac:(lia)) as (j & h' & Hj & Hh).
          assert (Hh1 : holds_rlock h' = 1%nat) by (destruct h'; simpl in *; lia).
          destruct (reader_inside_steps _ _ _ _ _ _ _ HI Hj Hh1) as [s' Hs'].
          eauto 8.
      + left. destruct s as [st pc hs]; simpl in *. subst pc. simpl.
        rewrite Hk. unfold Lock_begin, mu_Lock_begin. rewrite Hw, Hwt. simpl. eauto. }
  split.
  - intros HNE. destruct (ppc s) eqn:Hpc.
    + exfalso. destruct s as [st pc hs]; simpl in *. subst pc. simpl in HNE.
      destruct (isTagged (url (srv st)) st). discriminate.
    + exfalso. destruct s as [st pc hs]; simpl in *. subst pc. discriminate.
    + right. split; [reflexivity|].
      destruct (Hwait eq_refl) as [[s' Hs']|(Hwt & _ & Hex)]; [congruence|].
      split; [exact Hwt | exact Hex].
    + exfalso. destruct s as [st pc hs]; simpl in *. subst pc. discriminate.
    + exfalso. destruct s as [st pc hs]; simpl in *. subst pc. simpl in HNE.
      unfold Unlock, mu_Unlock in HNE. destruct inv_pc0 as (_ & Hw & _).
      rewrite Hw in HNE. discriminate.
    + exfalso. destruct s as [st pc hs]; simpl in *. subst pc. discriminate.
    + left. reflexivity.
  - intros i h Hi HNE.
    pose proof (total_le holds_rlock _ _ _ Hi) as Hle.
    destruct h.
    + exfalso. destruct s as [st pc hs]; simpl in *. rewrite Hi in HNE. discriminate.
    + right. split; [reflexivity|].
      destruct (writer (mu (srv (state s)))) eqn:Ew.
      * left. pose proof (pc_inv_holds_lock _ _ _ _ inv_pc0) as Hl.
        rewrite Ew in Hl. split; [symmetry; exact Hl|].
        destruct s as [st pc hs]; simpl in *.
        destruct pc; simpl in Hl; try discriminate; simpl.
        -- eauto.
        -- unfold Unlock, mu_Unlock. rewrite Ew. simpl. eauto.
      * destruct (waiting (mu (srv (state s)))) eqn:Hwt.
        -- right. pose proof (inv_waiting0 eq_refl) as Hpc.
           split; [exact Hpc|]. split; [reflexivity|].
           destruct (Hwait Hpc) as [Hs'|(_ & _ & Hex)]; [left; exact Hs' | right; exact Hex].
        -- exfalso. destruct s as [st pc hs]; simpl in *. rewrite Hi in HNE.
           simpl in HNE. unfold RLock, mu_RLock in HNE. rewrite Ew, Hwt in HNE.
           discriminate.
    + exfalso. destruct s as [st pc hs]; simpl in *. rewrite Hi in HNE. discriminate.
    + exfalso. destruct s as [st pc hs]; simpl in *. rewrite Hi in HNE.
      simpl in HNE, Hle. unfold RUnlock, mu_RUnlock in HNE.
      destruct (readers (mu (srv st))); [lia|discriminate].
    + exfalso. destruct s as [st pc hs]; simpl in *. rewrite Hi in HNE. discriminate.
    + left. eauto.
Qed.

Lemma waits_for_a_running_goroutine_witness :
  step ActPoll (after [ActRequest; ActServe 0; ActServe 0; ActPoll; ActPoll]
                  (fresh (net_status 200))) = NotEnabled /\
  (ppc (after [ActRequest; ActServe 0; ActServe 0; ActPoll; ActPoll]
          (fresh (net_status 200))) = PcExit \/
   (ppc (after [ActRequest; ActServe 0; ActServe 0; ActPoll; ActPoll]
           (fresh (net_status 200))) = PcLock /\
    waiting (mu (srv (state (after [ActRequest; ActServe 0; ActServe 0; ActPoll; ActPoll]
                               (fresh (net_status 200)))))) = true /\
    exists i h s',
      handlers (after [ActRequest; ActServe 0; ActServe 0; ActPoll; ActPoll]
                  (fresh (net_status 200))) !! i = Some h /\
      holds_rlock h = 1%nat /\
      step (ActServe i) (after [ActRequest; ActServe 0; ActServe 0; ActPoll; ActPoll]
                           (fresh (net_status 200))) = Ok s')).
Proof.
  split; [reflexivity|].
  destruct (waits_for_a_running_goroutine (net_status 200) "10.0.0.7" "http://go/"
              (5 * Second)
              (after [ActRequest; ActServe 0; ActServe 0; ActPoll; ActPoll]
                 (fresh (net_status 200)))) as [H _].
  - exists [ActRequest; ActServe 0; ActServe 0; ActPoll; ActPoll].
    vm_compute. reflexivity.
  - apply H. reflexivity.
Defined.

(** The completion hook, in every interleaving: it has been called once
    when the polling goroutine has returned and not at all before, and when
    it is called [yes] is already true and the lock released. *)
Theorem pollDone_once_after_store n ver u p (s : Sys) :
  reachable n ver u p s ->
  count_occ Event_eq_dec (trace (state s)) EvDone
    = (if decide (ppc s = PcExit) then 1%nat else O) /\
  (In EvDone (trace (state s)) -> ppc s = PcExit /\ yes (srv (state s)) = true) /\
  (ppc s = PcDone ->
     yes (srv (state s)) = true /\ writer (mu (srv (state s))) = false /\
     exists s', step ActPoll s = Ok s' /\ ppc s' = PcExit /\
                trace (state s') = trace (state s) ++ [EvDone]).
Proof.
  intros Hr. apply Inv_reachable in Hr. destruct Hr.
  split; [exact inv_done0|]. split.
  - intros Hin. apply (count_occ_In Event_eq_dec) in Hin.
    rewrite inv_done0 in Hin. destruct (decide (ppc s = PcExit)) as [E|E]; [|lia].
    split; [exact E|]. rewrite E in inv_pc0. apply inv_pc0.
  - intros E. rewrite E in inv_pc0. destruct inv_pc0 as (Hy & Hw & _).
    split; [exact Hy|]. split; [exact Hw|].
    destruct s as [st pc hs]; simpl in *. subst pc. simpl.
    eexists; split; [reflexivity|]. split; reflexivity.
Qed.

Lemma pollDone_once_after_store_witness :
  count_occ Event_eq_dec
    (trace (state (after [ActPoll; ActPoll; ActRequest; ActPoll; ActPoll; ActPoll]
                     (fresh (net_status 200))))) EvDone = 1%nat.
Proof.
  destruct (pollDone_once_after_store (net_status 200) "10.0.0.7" "http://go/"
              (5 * Second)
              (after [ActPoll; ActPoll; ActRequest; ActPoll; ActPoll; ActPoll]
                 (fresh (net_status 200)))) as [H _].
  - exists [ActPoll; ActPoll; ActRequest; ActPoll; ActPoll; ActPoll].
    vm_compute. reflexivity.
  - rewrite H. reflexivity.
Defined.

(** After the store the polling goroutine makes no further request. *)
Lemma step_stored a s s' :
  step a s = Ok s' ->
  stored (ppc s) = true ->
  stored (ppc s') = true /\
  heads (state s') = heads (state s) /\
  pollCount (vars (state s')) = pollCount (vars (state s)) /\
  pollError (vars (state s')) = pollError (vars (state s)) /\
  pollErrorCount (vars (state s')) = pollErrorCount (vars (state s)).
Proof.
  intros H Hst. apply step_Ok in H. destruct a as [| |i].
  - destruct H as (pc & st & Hp & ->). simpl.
    apply poll_step_Ok in Hp. destruct (ppc s); simpl in Hst; try discriminate.
    + destruct Hp as (-> & _ & ->). repeat split.
    + destruct Hp as [-> ->]. repeat split.
    + contradiction.
  - subst s'. simpl. auto.
  - destruct H as (h & h' & st & _ & Hs & ->). simpl.
    apply serve_step_Ok in Hs. destruct h.
    + destruct Hs as [_ ->]. auto.
    + destruct Hs as (_ & _ & ->). auto.
    + destruct Hs as [_ ->]. auto.
    + destruct Hs as (_ & k & _ & ->). auto.
    + destruct Hs as [_ ->]. auto.
    + contradiction.
Qed.

(** Polling stops with the first success: once [yes] is true the process
    makes no further request, so the request answered with status 200 is the
    last one made and the only one answered so, and [pollCount],
    [pollError] and [pollErrorCount] keep their values for good. *)
Theorem no_probe_after_success n ver u p (sched : list Action) (s s' : Sys) :
  reachable n ver u p s ->
  yes (srv (state s)) = true ->
  exec sched s = Ok s' ->
  first_ok n u (heads (state s)) /\
  heads (state s') = heads (state s) /\
  pollCount (vars (state s')) = pollCount (vars (state s)) /\
  pollError (vars (state s')) = pollError (vars (state s)) /\
  pollErrorCount (vars (state s')) = pollErrorCount (vars (state s)).
Proof.
  intros Hr Hy Hx. apply Inv_reachable in Hr. destruct Hr.
  assert (Hst : stored (ppc s) = true).
  { rewrite <- (pc_inv_stored _ _ _ _ inv_pc0). exact Hy. }
  split.
  { destruct (ppc s); simpl in Hst; try discriminate; apply inv_pc0. }
  clear - Hst Hx. revert s Hst Hx.
  induction sched as [|a sched IH]; intros s Hst; simpl.
  - intros [= <-]. auto.
  - intros H. apply bind_Ok in H as (s1 & H1 & H2).
    destruct (step_stored _ _ _ H1 Hst) as (Hst1 & E1 & E2 & E3 & E4).
    destruct (IH _ Hst1 H2) as (F1 & F2 & F3 & F4).
    rewrite F1, F2, F3, F4. auto.
Qed.

Lemma no_probe_after_success_witness :
  heads (state (after [ActPoll; ActRequest; ActPoll; ActServe 0; ActServe 0]
                  (after [ActPoll; ActPoll; ActPoll] (fresh (net_after 0))))) = 1%nat.
Proof.
  destruct (no_probe_after_success (net_after 0) "10.0.0.7" "http://go/" (5 * Second)
              [ActPoll; ActRequest; ActPoll; ActServe 0; ActServe 0]
              (after [ActPoll; ActPoll; ActPoll] (fresh (net_after 0)))
              (after [ActPoll; ActRequest; ActPoll; ActServe 0; ActServe 0]
                 (after [ActPoll; ActPoll; ActPoll] (fresh (net_after 0)))))
    as (_ & H & _).
  - exists [ActPoll; ActPoll; ActPoll]. vm_compute. reflexivity.
  - reflexivity.
  - vm_compute. reflexivity.
  - rewrite H. reflexivity.
Defined.





Lemma data_inv_step n ver u p a s s' :
  Inv n ver u p s -> data_inv ver u s -> step a s = Ok s' -> data_inv ver u s'.
Proof.
  intros HI HD Hs. pose proof Hs as Hs0. apply step_Ok in Hs.
  destruct a as [| |i].
  - destruct Hs as (pc & st & Hp & ->). intros j h d Hj Hd. simpl in *.
    destruct (HD j h d Hj Hd) as (Hu & Hv & Hy).
    split; [exact Hu|]. split; [exact Hv|].
    intros Hd'. eapply poll_step_yes; eauto.
  - subst s'. intros j h d Hj Hd. simpl in *.
    apply lookup_app_Some in Hj as [Hj|[_ Hj]].
    + exact (HD j h d Hj Hd).
    + destruct (j - length (handlers s))%nat as [|k]; simpl in Hj; [|discriminate].
      injection Hj as <-. discriminate.
  - destruct Hs as (h0 & h' & st & Hi & Hstep & ->).
    pose proof (serve_step_yes _ _ _ _ Hstep) as Hyes.
    intros j h d Hj Hd. simpl in *. rewrite Hyes.
    destruct (decide (i = j)) as [<-|Hne].
    + rewrite list_lookup_insert_eq in Hj by (eapply lookup_lt_Some; eauto).
      injection Hj as <-.
      apply serve_step_Ok in Hstep. destruct h0.
      * destruct Hstep as [-> _]. discriminate.
      * destruct Hstep as (-> & _). discriminate.
      * destruct Hstep as [-> _]. injection Hd as <-. simpl.
        rewrite (inv_url _ _ _ _ _ HI), (inv_version _ _ _ _ _ HI). auto.
      * destruct Hstep as (-> & _). simpl in Hd. injection Hd as <-.
        exact (HD i (HRUnlock d0) d0 Hi eq_refl).
      * destruct Hstep as [-> _]. simpl in Hd. injection Hd as <-.
        exact (HD i (HExecute d0) d0 Hi eq_refl).
      * contradiction.
    + rewrite list_lookup_insert_ne in Hj by exact Hne.
      exact (HD j h d Hj Hd).
Qed.

Lemma data_inv_reachable n ver u p s : reachable n ver u p s -> data_inv ver u s.
Proof.
  intros [sched Hx].
  cut (Inv n ver u p s /\ data_inv ver u s); [intros [_ H]; exact H|].
  revert sched s Hx. apply exec_ind_r.
  - split; [apply Inv_start|]. intros i h d Hi. destruct i; discriminate.
  - intros a s s' [HI HD] Hs. split; [eapply Inv_step; eauto|].
    eapply data_inv_step; eauto.
Qed.

(** What a handler renders: the URL and the version the server was made
    with, and [true] only if [yes] has been set, so only after a request
    was answered with status 200. A handler that has read [false] may
    still render it after [yes] has become true. *)
Theorem handler_data n ver u p (s : Sys) (i : nat) (h : ServePC) (d : Data) :
  reachable n ver u p s ->
  handlers s !! i = Some h ->
  data_of h = Some d ->
  URL d = u /\ Version d = ver /\
  (Yes d = true ->
     yes (srv (state s)) = true /\ first_ok n u (heads (state s))).
Proof.
  intros Hr Hi Hd.
  destruct (data_inv_reachable _ _ _ _ _ Hr i h d Hi Hd) as (Hu & Hv & Hy).
  split; [exact Hu|]. split; [exact Hv|]. intros Ht. specialize (Hy Ht).
  split; [exact Hy|].
  apply Inv_reachable in Hr. destruct Hr.
  rewrite (pc_inv_stored _ _ _ _ inv_pc0) in Hy.
  destruct (ppc s); simpl in Hy; try discriminate; apply inv_pc0.
Qed.

Lemma handler_data_witness :
  handlers (after [ActRequest; ActServe 0; ActServe 0; ActServe 0; ActPoll;
                   ActServe 0; ActPoll; ActPoll; ActPoll]
              (fresh (net_status 200))) !! O
    = Some (HExecute {| URL := "http://go/"; Version := "10.0.0.7"; Yes := false |}) /\
  yes (srv (state (after [ActRequest; ActServe 0; ActServe 0; ActServe 0; ActPoll;
                          ActServe 0; ActPoll; ActPoll; ActPoll]
                     (fresh (net_status 200))))) = true /\
  URL {| URL := "http://go/"; Version := "10.0.0.7"; Yes := false |} = "http://go/".
Proof.
  split; [reflexivity|]. split; [reflexivity|].
  destruct (handler_data (net_status 200) "10.0.0.7" "http://go/" (5 * Second)
              (after [ActRequest; ActServe 0; ActServe 0; ActServe 0; ActPoll;
                      ActServe 0; ActPoll; ActPoll; ActPoll]
                 (fresh (net_status 200)))
              O
              (HExecute {| URL := "http://go/"; Version := "10.0.0.7"; Yes := false |})
              {| URL := "http://go/"; Version := "10.0.0.7"; Yes := false |})
    as (H & _).
  - exists [ActRequest; ActServe 0; ActServe 0; ActServe 0; ActPoll;
            ActServe 0; ActPoll; ActPoll; ActPoll]. vm_compute. reflexivity.
  - reflexivity.
  - reflexivity.
  - exact H.
Defined.

(** [ServeHTTP] run without interruption: it waits exactly while the lock
    is held for writing or a call of [Lock] is waiting for it; otherwise it
    returns the three fields as they are, having added one to [hitCount]
    and nothing else, the lock being as it was before; and a handler
    scheduled five times in a row does the same. *)
Theorem ServeHTTP_uninterrupted (s : Sys) (i : nat) :
  handlers s !! i = Some HHit ->
  (writer (mu (srv (state s))) = true \/ waiting (mu (srv (state s))) = true ->
     ServeHTTP (state s) = NotEnabled /\
     exec (repeat (ActServe i) 2) s = NotEnabled) /\
  (writer (mu (srv (state s))) = false ->
   waiting (mu (srv (state s))) = false ->
     ServeHTTP (state s)
       = Ok (read_data (state s),
             with_vars (hitCount_Add 1 (vars (state s))) (state s)) /\
     exec (repeat (ActServe i) 5) s
       = Ok {| state := with_vars (hitCount_Add 1 (vars (state s))) (state s);
               ppc := ppc s;
               handlers := <[i := HReturned (read_data (state s))]> (handlers s) |}) /\
  (forall m, ServeHTTP (state s) <> Fatal m).
Proof.
  intros Hi. pose proof (lookup_lt_Some _ _ _ Hi) as Hlt.
  destruct s as [[[ver u p [w wt r] y] v nt hd tr] pc hs]. simpl in *.
  split; [|split].
  - intros Hb. split.
    + unfold ServeHTTP, RLock, mu_RLock. simpl.
      destruct w; [reflexivity|]. destruct Hb as [Hb|Hb]; [discriminate|].
      rewrite Hb. reflexivity.
    + simpl. rewrite Hi. simpl.
      rewrite list_lookup_insert_eq by exact Hlt. simpl.
      unfold RLock, mu_RLock. simpl.
      destruct w; [reflexivity|]. destruct Hb as [Hb|Hb]; [discriminate|].
      rewrite Hb. reflexivity.
  - intros -> ->. split; [reflexivity|].
    simpl. rewrite Hi. simpl.
    rewrite !list_lookup_insert_eq by (rewrite ?length_insert; exact Hlt). simpl.
    rewrite !list_lookup_insert_eq by (rewrite ?length_insert; exact Hlt). simpl.
    rewrite !list_lookup_insert_eq by (rewrite ?length_insert; exact Hlt). simpl.
    rewrite !list_lookup_insert_eq by (rewrite ?length_insert; exact Hlt). simpl.
    rewrite !list_insert_insert_eq. reflexivity.
  - intros m. unfold ServeHTTP, RLock, RUnlock, mu_RLock, mu_RUnlock. simpl.
    destruct w; [discriminate|]. destruct wt; discriminate.
Qed.

Lemma ServeHTTP_uninterrupted_witness :
  ServeHTTP (state (after [ActRequest] (fresh net_refused)))
    = Ok ({| URL := "http://go/"; Version := "10.0.0.7"; Yes := false |},
          with_vars (hitCount_Add 1 (vars (state (after [ActRequest] (fresh net_refused)))))
                    (state (after [ActRequest] (fresh net_refused)))) /\
  step ActPoll (after [ActRequest; ActServe 0; ActServe 0; ActPoll; ActPoll; ActRequest]
                  (fresh (net_status 200))) = NotEnabled /\
  ServeHTTP (state (after [ActRequest; ActServe 0; ActServe 0; ActPoll; ActPoll; ActRequest]
                      (fresh (net_status 200)))) = NotEnabled.
Proof.
  destruct (ServeHTTP_uninterrupted (after [ActRequest] (fresh net_refused)) O)
    as (_ & H & _).
  - reflexivity.
  - destruct (H eq_refl eq_refl) as [H1 _]. split; [exact H1|].
    split; [reflexivity|].
    destruct (ServeHTTP_uninterrupted
                (after [ActRequest; ActServe 0; ActServe 0; ActPoll; ActPoll; ActRequest]
                   (fresh (net_status 200))) 1) as (H2 & _).
    + reflexivity.
    + destruct H2 as [H2 _]; [right; reflexivity | exact H2].
Defined.

(** * Further properties of [main] *)






Lemma flag_Set_not_waiting L name value fs : flag_Set L name value fs <> NotEnabled.
Proof.
  unfold flag_Set. destruct (formal fs !! name); [|discriminate].
  destruct (cells fs !! n) as [[]|]; try discriminate.
  destruct (ParseDuration L value); discriminate.
Qed.

Lemma flag_Parse_not_waiting L args fs : flag_Parse L args fs <> NotEnabled.
Proof.
  revert fs. induction args as [|[name value] args IH]; intros fs; simpl.
  - discriminate.
  - destruct (flag_Set L name value fs) as [fs1| |m] eqn:E; simpl.
    + apply IH.
    + exfalso. eapply flag_Set_not_waiting; eauto.
    + discriminate.
Qed.

(** What a command line that parses is made of. *)
Lemma flag_Parse_Ok_args L args :
  forall fs fs' a d v i,
  formal fs = formal flags0 ->
  cells fs = [VString a; VDuration d; VString v; VString i] ->
  flag_Parse L args fs = Ok fs' ->
  forall name value, In (name, value) args ->
    In name flag_names /\ (name = "poll" -> is_Some (ParseDuration L value)).
Proof.
  induction args as [|[n0 v0] args IH]; intros fs fs' a d v i Hf Hc; simpl.
  - intros _ name value [].
  - intros H. apply bind_Ok in H as (fs1 & H1 & H2).
    destruct (flag_Set_flags0 _ _ _ _ _ _ _ _ _ Hf Hc H1) as [Hf1 Hc1].
    intros name value [[= <- <-]|Hin].
    + unfold flag_Set in H1. rewrite Hf, flags0_lookup, Hc in H1.
      unfold flag_names. repeat case_decide; subst; simpl in *;
        try discriminate; (split; [auto 6|]); try discriminate.
      intros _. destruct (ParseDuration L v0); [eauto | discriminate].
    + eapply (IH _ _ _ _ _ _ Hf1 Hc1 H2); eauto.
Qed.

(** [main] stops before doing anything when the command line names a flag
    other than [http], [poll], [version] and [iphost] (so the flag
    ["Ip Host"], registered only later, cannot be given) or gives [-poll] a
    value that is no duration. *)
Theorem main_rejects (L : Lib) (args : list (string * string))
    (interfaces : list Interface * option string) (name value : string) :
  In (name, value) args ->
  ~ In name flag_names \/ (name = "poll" /\ ParseDuration L value = None) ->
  exists m, main L args interfaces = Fatal m.
Proof.
  intros Hin Hbad. rewrite main_eq.
  destruct (flag_Parse L args flags0) as [fs| |m] eqn:HP.
  - exfalso.
    destruct (flag_Parse_Ok_args _ _ _ _ _ _ _ _ eq_refl eq_refl HP _ _ Hin)
      as [Hn Hd].
    destruct Hbad as [Hbad|[-> Hnone]]; [exact (Hbad Hn)|].
    destruct (Hd eq_refl) as [z Hz]. congruence.
  - exfalso. eapply flag_Parse_not_waiting; eauto.
  - eauto.
Qed.

Lemma main_rejects_witness :
  exists m, main lib_example [("http", ":80"); ("Ip Host", "10.0.0.7")] ([], None)
            = Fatal m.
Proof.
  apply (main_rejects lib_example [("http", ":80"); ("Ip Host", "10.0.0.7")]
           ([], None) "Ip Host" "10.0.0.7").
  - right. left. reflexivity.
  - left. unfold flag_names. simpl. intros [H|[H|[H|[H|[]]]]]; discriminate.
Defined.

Lemma found_ips_without_errors interfaces :
  found_ips (fst (without_errors interfaces)) = found_ips (fst interfaces).
Proof.
  unfold without_errors, found_ips. simpl.
  induction (fst interfaces) as [|i l IH]; simpl; [reflexivity|].
  rewrite IH. reflexivity.
Qed.

(** The errors of the enumeration of the interfaces are logged, in the
    order they come, and change nothing else; and when the enumeration
    finds no address the server is given the text of the nil address. *)
Theorem main_enumeration (L : Lib) (args : list (string * string))
    (interfaces : list Interface * option string) (out : Served) :
  main L args interfaces = Ok out ->
  main_log out = log_err (snd interfaces) [] ++ omap snd (fst interfaces) /\
  (exists out', main L args (without_errors interfaces) = Ok out' /\
                served out' = served out /\ listen out' = listen out /\
                flag_set out' = flag_set out /\ main_log out' = []) /\
  (found_ips (fst interfaces) = [] ->
     version (fst (served out)) = IP_String L [] /\
     url (fst (served out)) = baseChangeURL +:+ "go" +:+ IP_String L []).
Proof.
  rewrite !main_eq. destruct (flag_Parse L args flags0); [|discriminate..].
  intros [= <-]. split; [reflexivity|]. split.
  - eexists. split; [reflexivity|].
    unfold main_result, last_ip. rewrite found_ips_without_errors. simpl.
    repeat split.
    induction (fst interfaces) as [|i l IH]; simpl; [reflexivity | exact IH].
  - intros Hnil. unfold main_result, last_ip. simpl. rewrite Hnil. simpl. auto.
Qed.

Lemma main_enumeration_witness :
  main_log (main_result lib_example [] ([([], Some "no such device")],
                                        Some "route ip+net: no such network interface"))
    = ["route ip+net: no such network interface"; "no such device"] /\
  version (fst (served (main_result lib_example []
             ([([], Some "no such device")],
              Some "route ip+net: no such network interface")))) = "<nil>".
Proof.
  destruct (main_enumeration lib_example []
              ([([], Some "no such device")], Some "route ip+net: no such network interface")
              (main_result lib_example []
                 ([([], Some "no such device")],
                  Some "route ip+net: no such network interface")))
    as (H1 & _ & H2).
  - vm_compute. reflexivity.
  - split; [rewrite H1; reflexivity|].
    destruct (H2 eq_refl) as [H3 _]. rewrite H3. reflexivity.
Defined.

(** * The tag is found when it is there *)






(** * The events of the polling goroutine *)

Lemma in_head_failed_rounds n u p j k v :
  In (EvHead v) (failed_rounds n u p j k) -> v = u.
Proof.
  revert j. induction k as [|k IH]; intros j; simpl; [intros []|].
  intros [[= <-]|H]; [reflexivity|].
  apply in_app_or in H as [H|[H|H]].
  - destruct (n u j); simpl in H; intuition discriminate.
  - discriminate.
  - eauto.
Qed.

(** The requests, the sleeps, the store under the lock and the call of the
    hook happen in the order of [poll] whatever the handlers do: in every
    state of the process the events of the polling goroutine are those of
    its failed probes, each followed by a sleep of the period, and of the
    part of the last round it has done. All its requests are for the URL of
    the server. *)
Theorem poller_trace n ver u p (s : Sys) :
  reachable n ver u p s ->
  trace (state s) = poll_trace n u p (heads (state s)) (ppc s) /\
  (ppc s <> PcTest -> (1 <= heads (state s))%nat) /\
  (forall v, In (EvHead v) (trace (state s)) -> v = u) /\
  calls (trace (state s))
    = probe_sleep u p (if decide (ppc s = PcTest) then heads (state s)
                       else pred (heads (state s)))
      ++ match ppc s with
         | PcTest => []
         | PcExit => [EvHead u; EvDone]
         | _ => [EvHead u]
         end.
Proof.
  intros Hr.
  pose proof (poll_trace_reachable _ _ _ _ _ Hr) as H.
  destruct H as [Ht Hh]. split; [exact Ht|]. split; [exact Hh|]. split.
  - intros v. rewrite Ht. unfold poll_trace, confirm_events.
    destruct (ppc s); intros Hin;
      try (apply in_app_or in Hin as [Hin|Hin]);
      try (eapply in_head_failed_rounds; eauto; fail);
      try (destruct (n u (pred (heads (state s)))));
      simpl in Hin; intuition congruence.
  - rewrite Ht. apply calls_poll_trace.
Qed.

Lemma poller_trace_witness :
  calls (trace (state (after [ActPoll; ActRequest; ActPoll; ActServe 0; ActPoll;
                              ActServe 0; ActPoll]
                         (fresh (net_status 503)))))
    = [EvHead "http://go/"; EvSleep (5 * Second);
       EvHead "http://go/"; EvSleep (5 * Second)].
Proof.
  destruct (poller_trace (net_status 503) "10.0.0.7" "http://go/" (5 * Second)
              (after [ActPoll; ActRequest; ActPoll; ActServe 0; ActPoll;
                      ActServe 0; ActPoll]
                 (fresh (net_status 503)))) as (_ & _ & _ & H).
  - exists [ActPoll; ActRequest; ActPoll; ActServe 0; ActPoll; ActServe 0; ActPoll].
    vm_compute. reflexivity.
  - rewrite H. reflexivity.
Defined.

(** * What a handler leaves alone *)

(** A step of a handler changes nothing but [hitCount], the number of
    readers of the lock and the handler itself: the fields of the server,
    [yes] among them, the variables of the poller, its requests, its events
    and its place in [poll] stay as they are, and so do the other
    handlers. *)
Theorem handler_only_reads (s s' : Sys) (i : nat) :
  step (ActServe i) s = Ok s' ->
  yes (srv (state s')) = yes (srv (state s)) /\
  version (srv (state s')) = version (srv (state s)) /\
  url (srv (state s')) = url (srv (state s)) /\
  period (srv (state s')) = period (srv (state s)) /\
  writer (mu (srv (state s'))) = writer (mu (srv (state s))) /\
  pollCount (vars (state s')) = pollCount (vars (state s)) /\
  pollError (vars (state s')) = pollError (vars (state s)) /\
  pollErrorCount (vars (state s')) = pollErrorCount (vars (state s)) /\
  heads (state s') = heads (state s) /\
  trace (state s') = trace (state s) /\
  ppc s' = ppc s /\
  length (handlers s') = length (handlers s) /\
  (forall j, j <> i -> handlers s' !! j = handlers s !! j).
Proof.
  intros H. apply step_Ok in H as (h & h' & st & Hi & Hs & ->). simpl.
  assert (Hl : forall j, j <> i -> <[i := h']> (handlers s) !! j = handlers s !! j).
  { intros j Hj. apply list_lookup_insert_ne. congruence. }
  rewrite length_insert.
  apply serve_step_Ok in Hs. destruct h.
  - destruct Hs as [_ ->]. simpl. repeat split; auto.
  - destruct Hs as (_ & Hw & ->). simpl. repeat split; auto.
  - destruct Hs as [_ ->]. repeat split; auto.
  - destruct Hs as (_ & k & _ & ->). simpl. repeat split; auto.
  - destruct Hs as [_ ->]. repeat split; auto.
  - contradiction.
Qed.

Lemma handler_only_reads_witness :
  yes (srv (state (after [ActServe 0] (after [ActRequest] (fresh net_refused))))) = false /\
  ppc (after [ActServe 0] (after [ActRequest] (fresh net_refused))) = PcTest.
Proof.
  destruct (handler_only_reads (after [ActRequest] (fresh net_refused))
              (after [ActServe 0] (after [ActRequest] (fresh net_refused))) O)
    as (H1 & _ & _ & _ & _ & _ & _ & _ & _ & _ & H2 & _).
  - reflexivity.
  - split; [rewrite H1 | rewrite H2]; reflexivity.
Defined.
